(** * Turn navigation store of gh-maps-react

    A shallow embedding of [TurnNavigationStore] (the reducer of the
    turn-by-turn navigation state, its two static helpers and the handlers
    of the reroute promise), followed by the properties of the
    specification that concern it.

    Conventions of the embedding.
    - A JavaScript number is [num]: [undefined] and [NaN] are kept apart
      from the finite values, which are rationals.  Infinities and the
      rounding of binary floating point are outside the model.
    - [reduce] runs in the monad [M]: it returns or throws, and it appends
      the calls it makes on its collaborators (location device, routing
      client, speech synthesizer) to a list of effects.  [console.log] is
      left out.
    - The functions of [GeoMethods] and [Translation], which are imported by
      the store but are not part of it, are the fields of [Externals]. *)

From Stdlib Require Import ZArith NArith QArith Qround Qabs Bool List.
From Stdlib Require Import String Ascii Lia Lqa DecimalString.
Import ListNotations.

Local Open Scope string_scope.
Local Open Scope list_scope.

(** ** JavaScript numbers *)

Inductive num : Type :=
| Undefined
| NaN
| Num (q : Q).

Module JS.

Definition lift2 (f : Q -> Q -> Q) (a b : num) : num :=
  match a, b with
  | Num x, Num y => Num (f x y)
  | _, _ => NaN
  end.

Definition add : num -> num -> num := lift2 Qplus.
Definition sub : num -> num -> num := lift2 Qminus.
Definition mul : num -> num -> num := lift2 Qmult.
(** Only used with the non-zero divisors 5 and 100. *)
Definition div : num -> num -> num := lift2 Qdiv.

Definition abs (a : num) : num :=
  match a with
  | Num x => Num (Qabs x)
  | _ => NaN
  end.

(** [Math.round]: the nearest integer, ties towards plus infinity;
    [None] stands for the result [NaN]. *)
Definition roundZ (a : num) : option Z :=
  match a with
  | Num x => Some (Qfloor (x + (1 # 2)))
  | _ => None
  end.

Definition ofZ (z : Z) : num := Num (inject_Z z).

Definition round (a : num) : num :=
  match roundZ a with
  | Some z => ofZ z
  | None => NaN
  end.

Definition isNaN (a : num) : bool :=
  match a with
  | Num _ => false
  | _ => true
  end.

(** Relational operators: any comparison with [undefined] or [NaN] is
    false. *)
Definition cmp (test : comparison -> bool) (a b : num) : bool :=
  match a, b with
  | Num x, Num y => test (x ?= y)%Q
  | _, _ => false
  end.

Definition lt : num -> num -> bool :=
  cmp (fun c => match c with Lt => true | _ => false end).
Definition gt : num -> num -> bool :=
  cmp (fun c => match c with Gt => true | _ => false end).
Definition le : num -> num -> bool :=
  cmp (fun c => match c with Gt => false | _ => true end).

(** The loose inequality [a != b] on values that are numbers or
    [undefined]. *)
Definition neq (a b : num) : bool :=
  match a, b with
  | Num x, Num y => negb (Qeq_bool x y)
  | Undefined, Undefined => false
  | _, _ => true
  end.

(** The array index a property key denotes, if any. *)
Definition arrayIndex (a : num) : option nat :=
  match a with
  | Num x =>
      let r := Qred x in
      if (Qden r =? 1)%positive && (0 <=? Qnum r)%Z
      then Some (Z.to_nat (Qnum r))
      else None
  | _ => None
  end.

(** [arr[i]], for an array of objects: [None] is [undefined]. *)
Definition get {A : Type} (arr : list A) (i : num) : option A :=
  match arrayIndex i with
  | Some n => nth_error arr n
  | None => None
  end.

(** [arr[n]] for an array of numbers and a literal index. *)
Definition getNum (arr : list num) (n : nat) : num :=
  nth n arr Undefined.

Definition length {A : Type} (arr : list A) : num :=
  ofZ (Z.of_nat (List.length arr)).

(** ['' + z] for an integer. *)
Definition intToString (z : Z) : string :=
  NilZero.string_of_int (Z.to_int z).

End JS.

(** ** Order on numbers as propositions *)

Module JSProp.

(** [a < b] holds: both are finite and ordered so. *)
Definition Lt (a b : num) : Prop :=
  match a, b with
  | Num x, Num y => (x < y)%Q
  | _, _ => False
  end.

Definition Le (a b : num) : Prop :=
  match a, b with
  | Num x, Num y => (x <= y)%Q
  | _, _ => False
  end.

Definition Gt (a b : num) : Prop := Lt b a.

End JSProp.

(** ** Data model *)

Record Coordinate : Type := { lat : num; lng : num }.

Module Instruction.
(** A maneuver of a path, as the routing backend delivers it. *)
Record t : Type := {
  sign : num;
  text : string;
  street_name : string;
  points : list (list num)
}.
End Instruction.

(** The value of one entry of a path detail. *)
Inductive DetailValue : Type :=
| DNumber (n : num)
| DString (s : string).

(** [from, to, value] triples. *)
Definition Detail : Type := list (num * num * DetailValue).

Record Details : Type := {
  average_speed : Detail;
  max_speed : Detail;
  surface_detail : Detail;
  road_class : Detail
}.

(** [snapped_waypoints] holds [path.snapped_waypoints.coordinates]. *)
Record Path : Type := {
  distance : num;
  instructions : list Instruction.t;
  snapped_waypoints : list (list num);
  details : Details
}.

(** An opaque routing constraint, forwarded on a reroute. *)
Inductive CustomModel : Type :=
| customModelJson (json : string).

Module CurrentInstruction.
(** What [getCurrentInstruction] returns: a fresh object per call. *)
Record t : Type := {
  index : num;
  distanceToTurn : num;
  timeToEnd : num;
  distanceToEnd : num;
  nextWaypointIndex : num;
  distanceToWaypoint : num;
  distanceToRoute : num
}.
End CurrentInstruction.

Record TNInstructionState : Type := {
  index : num;
  distanceToTurn : num;
  timeToEnd : num;
  distanceToEnd : num;
  nextWaypointIndex : num;
  distanceToWaypoint : num;
  sign : num;
  text : option string;
  distanceToRoute : num
}.

Record TNPathDetailsState : Type := {
  maxSpeed : num;
  estimatedAvgSpeed : num;
  surface : option string;
  roadClass : option string
}.

Record TNSettingsState : Type := {
  fakeGPS : bool;
  acceptedRisk : bool;
  soundEnabled : bool
}.

(** [{} as TNInstructionState] and [{} as TNPathDetailsState]: every
    property reads as [undefined]. *)
Definition emptyInstruction : TNInstructionState :=
  {| index := Undefined; distanceToTurn := Undefined; timeToEnd := Undefined;
     distanceToEnd := Undefined; nextWaypointIndex := Undefined;
     distanceToWaypoint := Undefined; sign := Undefined; text := None;
     distanceToRoute := Undefined |}.

Definition emptyPathDetails : TNPathDetailsState :=
  {| maxSpeed := Undefined; estimatedAvgSpeed := Undefined;
     surface := None; roadClass := None |}.

Record TurnNavigationStoreState : Type := {
  showUI : bool;
  started : bool;
  oldTiles : string;
  coordinate : Coordinate;
  speed : num;
  heading : num;
  initialPath : option Path;
  activePath : option Path;
  activeProfile : string;
  customModel : option CustomModel;
  rerouteInProgress : bool;
  settings : TNSettingsState;
  instruction : TNInstructionState;
  pathDetails : TNPathDetailsState
}.

Module RoutingArgs.
Record t : Type := {
  points : list (list num);
  maxAlternativeRoutes : num;
  heading : num;
  zoom : bool;
  profile : string;
  customModel : option CustomModel
}.
End RoutingArgs.

(** The settings an update carries; an absent property is [None]. *)
Record TNSettingsUpdate : Type := {
  newFakeGPS : option bool;
  newAcceptedRisk : option bool;
  newSoundEnabled : option bool
}.

(** The actions the reducer tells apart; [OtherAction] is any action meant
    for another store. *)
Inductive Action : Type :=
| TurnNavigationStop
| TurnNavigationSettingsUpdate (update : TNSettingsUpdate)
| TurnNavigationStart (enableFullscreen : bool)
| SelectMapLayer (layer : string)
| TurnNavigationReroutingFailed
| SetCustomModel (model : option CustomModel) (valid : bool)
| SetVehicleProfile (name : string)
| SetSelectedPath (path : Path)
| LocationUpdate (position : Coordinate) (newSpeed newHeading : num)
| TurnNavigationRerouting (path : Path)
| OtherAction.

(** ** Effects and exceptions *)

Inductive Exn : Type :=
| Error (message : string)
| TypeError.

Inductive Effect : Type :=
| StopDevice
| InitFake
| InitReal (doFullscreen : bool)
| RouteRequest (args : RoutingArgs.t)
| Synthesize (spoken : string).

Inductive Outcome (A : Type) : Type :=
| Return (a : A)
| Throw (e : Exn).

Arguments Return {A} a.
Arguments Throw {A} e.

Definition M (A : Type) : Type := (Outcome A * list Effect)%type.

Definition ret {A : Type} (a : A) : M A := (Return a, []).
Definition throw {A : Type} (e : Exn) : M A := (Throw e, []).
Definition emit (e : Effect) : M unit := (Return tt, [e]).

Definition bind {A B : Type} (m : M A) (k : A -> M B) : M B :=
  match m with
  | (Return a, effs) => let (o, effs') := k a in (o, effs ++ effs')
  | (Throw e, effs) => (Throw e, effs)
  end.

Notation "x <- m ;; k" := (bind m (fun x => k))
  (at level 61, m at next level, right associativity).
Notation "m ;;; k" := (bind m (fun _ => k))
  (at level 61, right associativity).

(** ** Imported functions *)

(** [calcDist], [getCurrentInstruction] and [getCurrentDetails] of
    [GeoMethods] and [tr] of [Translation].  [getCurrentDetails] returns
    the four values the reducer destructures. *)
Class Externals : Type := {
  calcDist : Coordinate -> Coordinate -> num;
  getCurrentInstruction :
    list Instruction.t -> Coordinate -> CurrentInstruction.t;
  getCurrentDetails :
    Path -> Coordinate -> list Detail ->
    num * num * option string * option string;
  tr : string -> list string -> string
}.

(** ** The store *)

Section TurnNavigationStore.

Context {ext : Externals}.

Local Abbreviation State := TurnNavigationStoreState.

(** [distanceToRouteChange], reading [this.state]. *)
Definition distanceToRouteChange (this_state : State) (actionDistance : num)
  : bool :=
  if JS.isNaN (distanceToRoute (instruction this_state))
  then JS.gt actionDistance (Num 50)
  else JS.gt (JS.abs (JS.sub (distanceToRoute (instruction this_state))
                             actionDistance))
             (Num 50).

(** [synthesize], reading [this.state]. *)
Definition synthesize (this_state : State) (words : string) : M unit :=
  if soundEnabled (settings this_state) then emit (Synthesize words)
  else ret tt.

(** [getWaypoint]: reading a property of [undefined] throws. *)
Definition getWaypoint (path : Path) (nextWaypointIndex : num)
  : M Coordinate :=
  match JS.get (snapped_waypoints path) nextWaypointIndex with
  | Some c => ret {| lng := JS.getNum c 0; lat := JS.getNum c 1 |}
  | None => throw TypeError
  end.

Definition skipWaypoint (prevStateDistanceToWaypoint : num)
    (waypoint stateCoord actionCoord : Coordinate) : bool :=
  if JS.lt prevStateDistanceToWaypoint (Num 50) then true
  else
    let straightDistToWaypoint := calcDist actionCoord waypoint in
    if JS.lt straightDistToWaypoint (Num 50) then true
    else JS.lt prevStateDistanceToWaypoint (Num 80)
         && JS.lt straightDistToWaypoint (Num 80).

(** *** The [LocationUpdate] branch of [reduce], in its four parts *)

(** The projection of the fix and the waypoint skip test, with the switch
    back to [initialPath]. *)
Definition projectFix (state : State) (initial active : Path)
    (actionCoord : Coordinate) : M (Path * CurrentInstruction.t * bool) :=
  let path := active in
  let instr := getCurrentInstruction (instructions path) actionCoord in
  waypoint <- getWaypoint path (CurrentInstruction.nextWaypointIndex instr) ;;
  let skip := skipWaypoint (distanceToWaypoint (instruction state)) waypoint
                           (coordinate state) actionCoord in
  if skip
     && (List.length (snapped_waypoints path) =? 2)%nat
     && (2 <? List.length (snapped_waypoints initial))%nat
  then
    let path := initial in
    let instr := getCurrentInstruction (instructions path) actionCoord in
    waypoint <- getWaypoint path (CurrentInstruction.nextWaypointIndex instr) ;;
    ret (path, instr,
         skipWaypoint (distanceToWaypoint (instruction state)) waypoint
                      (coordinate state) actionCoord)
  else ret (path, instr, skip).

Definition withNextWaypointIndex (instr : CurrentInstruction.t) (n : num)
  : CurrentInstruction.t :=
  {| CurrentInstruction.index := CurrentInstruction.index instr;
     CurrentInstruction.distanceToTurn :=
       CurrentInstruction.distanceToTurn instr;
     CurrentInstruction.timeToEnd := CurrentInstruction.timeToEnd instr;
     CurrentInstruction.distanceToEnd :=
       CurrentInstruction.distanceToEnd instr;
     CurrentInstruction.nextWaypointIndex := n;
     CurrentInstruction.distanceToWaypoint :=
       CurrentInstruction.distanceToWaypoint instr;
     CurrentInstruction.distanceToRoute :=
       CurrentInstruction.distanceToRoute instr |}.

(** The advance to the next waypoint, or the cancelled skip. *)
Definition advanceWaypoint (path : Path) (instr : CurrentInstruction.t)
    (skip : bool) : CurrentInstruction.t * bool :=
  if skip then
    if JS.lt (JS.add (CurrentInstruction.nextWaypointIndex instr) (Num 1))
             (JS.length (snapped_waypoints path))
    then (withNextWaypointIndex instr
            (JS.add (CurrentInstruction.nextWaypointIndex instr) (Num 1)),
          true)
    else (instr, false)
  else (instr, skip).

(** The condition of the reroute branch. *)
Definition rerouteCondition (this_state state : State)
    (instr : CurrentInstruction.t) (skip : bool) : bool :=
  (showUI state
   && distanceToRouteChange this_state
        (CurrentInstruction.distanceToRoute instr))
  || skip.

Definition routingArgs (state : State) (coordinate toCoordinate : Coordinate)
    (heading : num) : RoutingArgs.t :=
  {| RoutingArgs.points :=
       [[lng coordinate; lat coordinate];
        [lng toCoordinate; lat toCoordinate]];
     RoutingArgs.maxAlternativeRoutes := Num 0;
     RoutingArgs.heading := heading;
     RoutingArgs.zoom := false;
     RoutingArgs.profile := activeProfile state;
     RoutingArgs.customModel := customModel state |}.

(** The state the reroute branch returns. *)
Definition rerouted (state : State) (queriedAPI : bool)
    (coordinate : Coordinate) (speed heading : num) : State :=
  {| showUI := showUI state; started := started state;
     oldTiles := oldTiles state; coordinate := coordinate;
     speed := speed; heading := heading;
     initialPath := initialPath state; activePath := activePath state;
     activeProfile := activeProfile state;
     customModel := customModel state;
     rerouteInProgress := queriedAPI;
     settings := settings state; instruction := instruction state;
     pathDetails := pathDetails state |}.

Definition rerouteBranch (state : State) (path : Path)
    (instr : CurrentInstruction.t) (coordinate : Coordinate)
    (speed heading : num) : M State :=
  queriedAPI <-
    (if negb (rerouteInProgress state) then
       toCoordinate <-
         getWaypoint path (CurrentInstruction.nextWaypointIndex instr) ;;
       emit (RouteRequest (routingArgs state coordinate toCoordinate heading)) ;;;
       ret true
     else ret false) ;;
  ret (rerouted state queriedAPI coordinate speed heading).

Definition lastAnnounceDistance (estimatedAvgSpeed : num) : num :=
  JS.add (Num 10)
    (JS.mul (JS.mul (Num 2) (JS.round (JS.div estimatedAvgSpeed (Num 5))))
            (Num 5)).

Definition firstAnnounceDistance : num := Num 1150.

(** The test of the near announcement. *)
Definition nearAnnouncement (estimatedAvgSpeed : num)
    (instructionState : TNInstructionState) (instr : CurrentInstruction.t)
  : bool :=
  JS.le (CurrentInstruction.distanceToTurn instr)
        (lastAnnounceDistance estimatedAvgSpeed)
  && (JS.gt (distanceToTurn instructionState)
            (lastAnnounceDistance estimatedAvgSpeed)
      || JS.neq (CurrentInstruction.index instr) (index instructionState)).

(** The test of the far announcement. *)
Definition farAnnouncement (estimatedAvgSpeed : num)
    (instructionState : TNInstructionState) (instr : CurrentInstruction.t)
  : bool :=
  JS.gt estimatedAvgSpeed (Num 15)
  && JS.gt (CurrentInstruction.distanceToTurn instr)
           (JS.add (lastAnnounceDistance estimatedAvgSpeed) (Num 50))
  && JS.le (CurrentInstruction.distanceToTurn instr) firstAnnounceDistance
  && (JS.gt (distanceToTurn instructionState) firstAnnounceDistance
      || JS.neq (CurrentInstruction.index instr) (index instructionState)).

Definition inString (instr : CurrentInstruction.t) : string :=
  if JS.gt (CurrentInstruction.distanceToTurn instr) (Num 800)
  then tr "in_km_singular" []
  else tr "in_m"
         [match JS.roundZ (JS.div (CurrentInstruction.distanceToTurn instr)
                                  (Num 100)) with
          | Some z => JS.intToString (z * 100)
          | None => "NaN"
          end].

(** The two announcements of a committed fix. *)
Definition announce (this_state state : State) (estimatedAvgSpeed : num)
    (instr : CurrentInstruction.t) (nextInstruction : Instruction.t)
  : M unit :=
  if soundEnabled (settings state) then
    (if nearAnnouncement estimatedAvgSpeed (instruction state) instr
     then synthesize this_state (Instruction.text nextInstruction)
     else ret tt) ;;;
    (if farAnnouncement estimatedAvgSpeed (instruction state) instr
     then synthesize this_state
            (inString instr ++ " " ++ Instruction.text nextInstruction)
     else ret tt)
  else ret tt.

(** The instruction snapshot built from a projection. *)
Definition snapshot (instr : CurrentInstruction.t)
    (nextInstruction : Instruction.t) : TNInstructionState :=
  {| index := CurrentInstruction.index instr;
     distanceToTurn := CurrentInstruction.distanceToTurn instr;
     timeToEnd := CurrentInstruction.timeToEnd instr;
     distanceToEnd := CurrentInstruction.distanceToEnd instr;
     nextWaypointIndex := CurrentInstruction.nextWaypointIndex instr;
     distanceToWaypoint := CurrentInstruction.distanceToWaypoint instr;
     sign := Instruction.sign nextInstruction;
     text := Some (Instruction.street_name nextInstruction);
     distanceToRoute := CurrentInstruction.distanceToRoute instr |}.

Definition currentDetails (path : Path) (coordinate : Coordinate)
  : num * num * option string * option string :=
  getCurrentDetails path coordinate
    [average_speed (details path); max_speed (details path);
     surface_detail (details path); road_class (details path)].

Definition detailsSnapshot
    (d : num * num * option string * option string) : TNPathDetailsState :=
  let '(estimatedAvgSpeed, maxSpeed, surface, roadClass) := d in
  {| maxSpeed := maxSpeed; estimatedAvgSpeed := JS.round estimatedAvgSpeed;
     surface := surface; roadClass := roadClass |}.

(** The state a committed fix returns. *)
Definition committed (state : State) (path : Path)
    (instr : CurrentInstruction.t) (nextInstruction : Instruction.t)
    (coordinate : Coordinate) (speed heading : num) : State :=
  {| showUI := true; started := started state;
     oldTiles := oldTiles state; coordinate := coordinate;
     speed := speed; heading := heading;
     initialPath := initialPath state; activePath := activePath state;
     activeProfile := activeProfile state;
     customModel := customModel state;
     rerouteInProgress := rerouteInProgress state;
     settings := settings state;
     instruction := snapshot instr nextInstruction;
     pathDetails := detailsSnapshot (currentDetails path coordinate) |}.

Definition commitBranch (this_state state : State) (path : Path)
    (instr : CurrentInstruction.t) (coordinate : Coordinate)
    (speed heading : num) : M State :=
  if JS.lt (CurrentInstruction.index instr) (Num 0)
  then throw (Error "Instruction should be valid if distanceToRoute is small")
  else
    match JS.get (instructions path) (CurrentInstruction.index instr) with
    | None => throw TypeError
    | Some nextInstruction =>
        announce this_state state
          (fst (fst (fst (currentDetails path coordinate))))
          instr nextInstruction ;;;
        ret (committed state path instr nextInstruction
                       coordinate speed heading)
    end.

Definition reduceLocationUpdate (this_state state : State)
    (coordinate : Coordinate) (speed heading : num) : M State :=
  match initialPath state with
  | None => throw (Error "initialPath must not be null")
  | Some initial =>
      match activePath state with
      | None => throw (Error "activePath must not be null")
      | Some active =>
          if (activeProfile state =? "")%string then ret this_state
          else
            projected <- projectFix state initial active coordinate ;;
            let '(path, instr, skip) := projected in
            let '(instr, skipWaypoint) := advanceWaypoint path instr skip in
            if rerouteCondition this_state state instr skipWaypoint
            then rerouteBranch state path instr coordinate speed heading
            else commitBranch this_state state path instr
                              coordinate speed heading
      end
  end.

(** *** The other branches *)

(** [{ ...state.settings, ...action.settings }]. *)
Definition mergeSettings (old : TNSettingsState) (update : TNSettingsUpdate)
  : TNSettingsState :=
  {| fakeGPS := match newFakeGPS update with
                | Some b => b
                | None => fakeGPS old
                end;
     acceptedRisk := match newAcceptedRisk update with
                     | Some b => b
                     | None => acceptedRisk old
                     end;
     soundEnabled := match newSoundEnabled update with
                     | Some b => b
                     | None => soundEnabled old
                     end |}.

(** The state the [TurnNavigationStop] branch returns. *)
Definition stopped (state : State) : State :=
  {| showUI := false; started := false;
     oldTiles := oldTiles state; coordinate := coordinate state;
     speed := Num 0; heading := Num 0;
     initialPath := initialPath state; activePath := activePath state;
     activeProfile := activeProfile state;
     customModel := customModel state;
     rerouteInProgress := rerouteInProgress state;
     settings := settings state; instruction := instruction state;
     pathDetails := pathDetails state |}.

(** The state the [SetSelectedPath] branch returns. *)
Definition selected (state : State) (path : Path) : State :=
  {| showUI := showUI state; started := started state;
     oldTiles := oldTiles state; coordinate := coordinate state;
     speed := speed state; heading := heading state;
     initialPath := Some path; activePath := Some path;
     activeProfile := activeProfile state;
     customModel := customModel state;
     rerouteInProgress := rerouteInProgress state;
     settings := settings state; instruction := emptyInstruction;
     pathDetails := emptyPathDetails |}.

(** [{ ...state, rerouteInProgress: false }]. *)
Definition rerouteCleared (state : State) : State :=
  {| showUI := showUI state; started := started state;
     oldTiles := oldTiles state; coordinate := coordinate state;
     speed := speed state; heading := heading state;
     initialPath := initialPath state; activePath := activePath state;
     activeProfile := activeProfile state;
     customModel := customModel state;
     rerouteInProgress := false;
     settings := settings state; instruction := instruction state;
     pathDetails := pathDetails state |}.

(** The state the [TurnNavigationRerouting] branch returns when the
    projection is valid. *)
Definition reroutedOnto (state : State) (path : Path)
    (instr : CurrentInstruction.t) (nextInstruction : Instruction.t)
  : State :=
  {| showUI := showUI state; started := started state;
     oldTiles := oldTiles state; coordinate := coordinate state;
     speed := speed state; heading := heading state;
     initialPath := initialPath state; activePath := Some path;
     activeProfile := activeProfile state;
     customModel := customModel state;
     rerouteInProgress := false;
     settings := settings state;
     instruction := snapshot instr nextInstruction;
     pathDetails := detailsSnapshot (currentDetails path (coordinate state)) |}.

Definition reduceRerouting (state : State) (path : Path) : M State :=
  let instr := getCurrentInstruction (instructions path) (coordinate state) in
  if JS.lt (CurrentInstruction.index instr) (Num 0)
  then ret (rerouteCleared state)
  else
    match JS.get (instructions path) (CurrentInstruction.index instr) with
    | None => throw TypeError
    | Some nextInstruction =>
        ret (reroutedOnto state path instr nextInstruction)
    end.

(** *** [reduce]

    [this_state] is what [this.state] reads while the reducer runs. *)
Definition reduce (this_state state : State) (action : Action) : M State :=
  match action with
  | TurnNavigationStop =>
      emit StopDevice ;;;
      ret (stopped state)
  | TurnNavigationSettingsUpdate update =>
      ret {| showUI := showUI state; started := started state;
             oldTiles := oldTiles state; coordinate := coordinate state;
             speed := speed state; heading := heading state;
             initialPath := initialPath state;
             activePath := activePath state;
             activeProfile := activeProfile state;
             customModel := customModel state;
             rerouteInProgress := rerouteInProgress state;
             settings := mergeSettings (settings state) update;
             instruction := instruction state;
             pathDetails := pathDetails state |}
  | TurnNavigationStart enableFullscreen =>
      (if fakeGPS (settings state) then emit InitFake
       else emit (InitReal enableFullscreen)) ;;;
      ret {| showUI := showUI state; started := true;
             oldTiles := oldTiles state; coordinate := coordinate state;
             speed := speed state; heading := heading state;
             initialPath := initialPath state;
             activePath := activePath state;
             activeProfile := activeProfile state;
             customModel := customModel state;
             rerouteInProgress := rerouteInProgress state;
             settings := settings state;
             instruction := instruction state;
             pathDetails := pathDetails state |}
  | SelectMapLayer layer =>
      if negb (started this_state) then
        ret {| showUI := showUI state; started := started state;
               oldTiles := layer; coordinate := coordinate state;
               speed := speed state; heading := heading state;
               initialPath := initialPath state;
               activePath := activePath state;
               activeProfile := activeProfile state;
               customModel := customModel state;
               rerouteInProgress := rerouteInProgress state;
               settings := settings state;
               instruction := instruction state;
               pathDetails := pathDetails state |}
      else ret state
  | TurnNavigationReroutingFailed =>
      ret (rerouteCleared state)
  | SetCustomModel model valid =>
      ret {| showUI := showUI state; started := started state;
             oldTiles := oldTiles state; coordinate := coordinate state;
             speed := speed state; heading := heading state;
             initialPath := initialPath state;
             activePath := activePath state;
             activeProfile := activeProfile state;
             customModel := if valid then model else None;
             rerouteInProgress := rerouteInProgress state;
             settings := settings state;
             instruction := instruction state;
             pathDetails := pathDetails state |}
  | SetVehicleProfile name =>
      ret {| showUI := showUI state; started := started state;
             oldTiles := oldTiles state; coordinate := coordinate state;
             speed := speed state; heading := heading state;
             initialPath := initialPath state;
             activePath := activePath state;
             activeProfile := name;
             customModel := customModel state;
             rerouteInProgress := rerouteInProgress state;
             settings := settings state;
             instruction := instruction state;
             pathDetails := pathDetails state |}
  | SetSelectedPath path =>
      if showUI state
      then throw (Error "Changing path while turn navigation should not happen")
      else ret (selected state path)
  | LocationUpdate coordinate speed heading =>
      reduceLocationUpdate this_state state coordinate speed heading
  | TurnNavigationRerouting path =>
      reduceRerouting state path
  | OtherAction => ret state
  end.

(** ** The store at run time *)

(** Modelled from the spec: the [Store] base class and the dispatcher,
    which are not among the sources.  A dispatched action is reduced
    against the current state of the store, which is also what
    [this.state] reads meanwhile; transitions run one at a time on a
    single queue. *)
Definition receive (state : State) (action : Action) : M State :=
  reduce state state action.

(** The store, the routing requests that have not resolved yet (oldest
    first), every effect so far and the exceptions that reached the
    caller of [dispatch]. *)
Record Store : Type := {
  state : State;
  inFlight : list RoutingArgs.t;
  effects : list Effect;
  uncaught : list Exn
}.

Definition requests (effs : list Effect) : list RoutingArgs.t :=
  flat_map (fun e => match e with RouteRequest a => [a] | _ => [] end) effs.

(** [Dispatcher.dispatch]: the state is replaced when the reducer
    returns and kept when it throws. *)
Definition dispatch (w : Store) (action : Action) : Store * option Exn :=
  match receive (state w) action with
  | (Return s, effs) =>
      ({| state := s; inFlight := inFlight w ++ requests effs;
          effects := effects w ++ effs; uncaught := uncaught w |}, None)
  | (Throw e, effs) =>
      ({| state := state w; inFlight := inFlight w ++ requests effs;
          effects := effects w ++ effs; uncaught := uncaught w |}, Some e)
  end.

(** How the promise of [api.route] settles. *)
Inductive RouteResult : Type :=
| Resolved (paths : list Path)
| Rejected.

(** The [then] handler of the routing request. *)
Definition onFulfilled (w : Store) (paths : list Path)
  : Store * option Exn :=
  match paths with
  | first :: _ =>
      match dispatch w (TurnNavigationRerouting first) with
      | (w', Some e) => (w', Some e)
      | (w', None) =>
          ({| state := state w'; inFlight := inFlight w';
              effects := effects w'
                         ++ snd (synthesize (state w') (tr "reroute" []));
              uncaught := uncaught w' |}, None)
      end
  | [] => dispatch w TurnNavigationReroutingFailed
  end.

(** The [catch] handler, which also receives what [then] throws. *)
Definition onRejected (w : Store) : Store * option Exn :=
  dispatch w TurnNavigationReroutingFailed.

Definition recordUncaught (r : Store * option Exn) : Store :=
  match r with
  | (w, None) => w
  | (w, Some e) =>
      {| state := state w; inFlight := inFlight w; effects := effects w;
         uncaught := uncaught w ++ [e] |}
  end.

(** The whole chain [route(args).then(...).catch(...)] on a result. *)
Definition settle (w : Store) (result : RouteResult) : Store :=
  match result with
  | Resolved paths =>
      match onFulfilled w paths with
      | (w', None) => w'
      | (w', Some _) => recordUncaught (onRejected w')
      end
  | Rejected => recordUncaught (onRejected w)
  end.

(** What the queue delivers: an action, or the result of the oldest
    request in flight. *)
Inductive Event : Type :=
| Dispatched (action : Action)
| RouteSettled (result : RouteResult).

Definition step (w : Store) (ev : Event) : Store :=
  match ev with
  | Dispatched action => recordUncaught (dispatch w action)
  | RouteSettled result =>
      match inFlight w with
      | [] => w
      | _ :: rest =>
          settle {| state := state w; inFlight := rest;
                    effects := effects w; uncaught := uncaught w |} result
      end
  end.

Definition run (w : Store) (evs : list Event) : Store :=
  fold_left step evs w.

(** The store as the constructor leaves it. *)
Definition initialState (fake : bool) (tiles : string) : State :=
  {| showUI := false; started := false; oldTiles := tiles;
     coordinate := {| lat := Num 0; lng := Num 0 |};
     speed := Num 0; heading := Num 0;
     initialPath := None; activePath := None;
     activeProfile := ""; customModel := None;
     rerouteInProgress := false;
     settings := {| fakeGPS := fake; acceptedRisk := false;
                    soundEnabled := negb fake |};
     instruction := emptyInstruction; pathDetails := emptyPathDetails |}.

Definition boot (s : State) : Store :=
  {| state := s; inFlight := []; effects := []; uncaught := [] |}.



Definition isStop (ev : Event) : bool :=
  match ev with
  | Dispatched TurnNavigationStop => true
  | _ => false
  end.


(** The fix at [c] is processed beyond the guards of the [LocationUpdate]
    branch: both paths are set, the profile is not empty and the
    projection returns [path], [instr] and the skip test [skip]. *)
Definition Projects (st : State) (c : Coordinate) (path : Path)
    (instr : CurrentInstruction.t) (skip : bool) : Prop :=
  exists initial active : Path,
    initialPath st = Some initial
    /\ activePath st = Some active
    /\ activeProfile st <> ""
    /\ projectFix st initial active c = (Return (path, instr, skip), []).

End TurnNavigationStore.

(** ** Sample data for the examples

    [axisGeo] is a stand-in for [GeoMethods] in the examples, not a model
    of it.  Distances are taken along the axes.  Every road runs along the
    line [lng = 0] towards the origin, where its next turn is; waypoint 1
    lies 1000 units beyond the turn.  A path without instructions has no
    current instruction (index -1).  The details of a path are constant
    along it and read from the first entry of each detail. *)

Definition axisDist (a b : Coordinate) : num :=
  JS.add (JS.abs (JS.sub (lat a) (lat b))) (JS.abs (JS.sub (lng a) (lng b))).

Definition axisProjection (instrs : list Instruction.t) (c : Coordinate)
  : CurrentInstruction.t :=
  {| CurrentInstruction.index :=
       match instrs with [] => Num (-1) | _ :: _ => Num 0 end;
     CurrentInstruction.distanceToTurn := JS.abs (lat c);
     CurrentInstruction.timeToEnd := Num 0;
     CurrentInstruction.distanceToEnd := JS.add (JS.abs (lat c)) (Num 1000);
     CurrentInstruction.nextWaypointIndex := Num 1;
     CurrentInstruction.distanceToWaypoint :=
       JS.add (JS.abs (lat c)) (Num 1000);
     CurrentInstruction.distanceToRoute := JS.abs (lng c) |}.

Definition firstNumber (d : Detail) : num :=
  match d with
  | (_, _, DNumber v) :: _ => v
  | _ => Undefined
  end.

Definition firstString (d : Detail) : option string :=
  match d with
  | (_, _, DString s) :: _ => Some s
  | _ => None
  end.

Definition axisDetails (path : Path) (c : Coordinate) (ds : list Detail)
  : num * num * option string * option string :=
  (firstNumber (nth 0 ds []), firstNumber (nth 1 ds []),
   firstString (nth 2 ds []), firstString (nth 3 ds [])).

Definition axisGeo : Externals :=
  {| calcDist := axisDist;
     getCurrentInstruction := axisProjection;
     getCurrentDetails := axisDetails;
     tr := fun key args => String.concat " " (key :: args) |}.

Definition at_ (latitude longitude : Q) : Coordinate :=
  {| lat := Num latitude; lng := Num longitude |}.

Definition turnRight : Instruction.t :=
  {| Instruction.sign := Num 2; Instruction.text := "Turn right";
     Instruction.street_name := "Main Street"; Instruction.points := [] |}.

Definition detailsAt (avgSpeed : Q) : Details :=
  {| average_speed := [(Num 0, Num 9, DNumber (Num avgSpeed))];
     max_speed := [(Num 0, Num 9, DNumber (Num 50))];
     surface_detail := [(Num 0, Num 9, DString "asphalt")];
     road_class := [(Num 0, Num 9, DString "residential")] |}.

(** A leg with two waypoints: the second one is 1000 units beyond the
    turn. *)
Definition leg (avgSpeed : Q) : Path :=
  {| distance := Num 2000; instructions := [turnRight];
     snapped_waypoints := [[Num 0; Num 1000]; [Num 0; Num (-1000)]];
     details := detailsAt avgSpeed |}.

(** A trip with three waypoints. *)
Definition trip : Path :=
  {| distance := Num 3000; instructions := [turnRight];
     snapped_waypoints :=
       [[Num 0; Num 1000]; [Num 0; Num (-1000)]; [Num 0; Num (-2000)]];
     details := detailsAt 25 |}.

(** A leg without instructions whose second waypoint is the origin. *)
Definition bareLeg : Path :=
  {| distance := Num 1000; instructions := [];
     snapped_waypoints := [[Num 0; Num 1000]; [Num 0; Num 0]];
     details := detailsAt 25 |}.

(** A store that is guiding along [path]: on the road, 500 units before
    the turn. *)
Definition guiding (path : Path) : TurnNavigationStoreState :=
  {| showUI := true; started := true; oldTiles := "OpenStreetMap";
     coordinate := at_ 500 0; speed := Num 4; heading := Num 180;
     initialPath := Some path; activePath := Some path;
     activeProfile := "car"; customModel := None;
     rerouteInProgress := false;
     settings := {| fakeGPS := false; acceptedRisk := true;
                    soundEnabled := true |};
     instruction :=
       {| index := Num 0; distanceToTurn := Num 500; timeToEnd := Num 0;
          distanceToEnd := Num 1500; nextWaypointIndex := Num 1;
          distanceToWaypoint := Num 1500; sign := Num 2;
          text := Some "Main Street"; distanceToRoute := Num 0 |};
     pathDetails :=
       {| maxSpeed := Num 50; estimatedAvgSpeed := Num 25;
          surface := Some "asphalt"; roadClass := Some "residential" |} |}.

(** A store that has a path and a profile but has seen no fix yet. *)
Definition waiting (initial active : Path) : TurnNavigationStoreState :=
  {| showUI := false; started := true; oldTiles := "OpenStreetMap";
     coordinate := at_ 0 0; speed := Num 0; heading := Num 0;
     initialPath := Some initial; activePath := Some active;
     activeProfile := "car"; customModel := None;
     rerouteInProgress := false;
     settings := {| fakeGPS := false; acceptedRisk := true;
                    soundEnabled := true |};
     instruction := emptyInstruction; pathDetails := emptyPathDetails |}.



(** ** Vocabulary for the further properties *)

(** The texts handed to the speech synthesizer, in order. *)
Definition spoken (effs : list Effect) : list string :=
  flat_map (fun e => match e with Synthesize t => [t] | _ => [] end) effs.

Definition isSettingsUpdate (ev : Event) : bool :=
  match ev with
  | Dispatched (TurnNavigationSettingsUpdate _) => true
  | _ => false
  end.

(** While the guidance display is on, both paths are set and the
    instruction snapshot is filled: its index is a number that is not
    negative and it has a text. *)
Definition GuidanceFilled (st : TurnNavigationStoreState) : Prop :=
  showUI st = true ->
  initialPath st <> None /\ activePath st <> None
  /\ JSProp.Le (Num 0) (index (instruction st))
  /\ text (instruction st) <> None.

(** [activePath] is set whenever [initialPath] is. *)
Definition PathsTogether (st : TurnNavigationStoreState) : Prop :=
  initialPath st <> None -> activePath st <> None.

(** A set flag is backed by a request in flight. *)
Definition FlagBacked (w : Store) : Prop :=
  rerouteInProgress (state w) = true -> inFlight w <> [].

(** The ways in which the reducer answers a [LocationUpdate] at [c]: it
    throws before any effect, ignores the fix for want of a profile,
    takes the reroute branch, or commits the fix against [path]. *)
Inductive FixOutcome {ext : Externals} (st : TurnNavigationStoreState)
    (c : Coordinate) (sp hd : num) : M TurnNavigationStoreState -> Prop :=
| FixThrows (e : Exn) : FixOutcome st c sp hd (Throw e, [])
| FixIgnored :
    activeProfile st = "" -> FixOutcome st c sp hd (Return st, [])
| FixReroutes (path : Path) (instr : CurrentInstruction.t) (w : list num) :
    activeProfile st <> "" ->
    (Some path = activePath st \/ Some path = initialPath st) ->
    JS.get (snapped_waypoints path) (CurrentInstruction.nextWaypointIndex instr)
    = Some w ->
    FixOutcome st c sp hd
      (Return (rerouted st (negb (rerouteInProgress st)) c sp hd),
       if rerouteInProgress st then []
       else [RouteRequest
               (routingArgs st c
                  {| lng := JS.getNum w 0; lat := JS.getNum w 1 |} hd)])
| FixCommits (path : Path) (instr : CurrentInstruction.t)
    (next : Instruction.t) :
    activeProfile st <> "" ->
    (Some path = activePath st \/ Some path = initialPath st) ->
    initialPath st <> None ->
    activePath st <> None ->
    JS.lt (CurrentInstruction.index instr) (Num 0) = false ->
    JS.get (instructions path) (CurrentInstruction.index instr) = Some next ->
    FixOutcome st c sp hd
      (Return (committed st path instr next c sp hd),
       snd (announce st st (fst (fst (fst (currentDetails path c))))
              instr next)).

(** ** Marker colours ([createMarkerSVG.ts])

    Strings are sequences of bytes here; [hexToRgb] only accepts ASCII. *)

(** The value of a character of the class [[a-f\d]] under the flag [i],
    as [parseInt(_, 16)] reads it. *)
Definition hexDigit (c : ascii) : option N :=
  let n := N_of_ascii c in
  if ((48 <=? n) && (n <=? 57))%N then Some (n - 48)%N
  else if ((97 <=? n) && (n <=? 102))%N then Some (n - 87)%N
  else if ((65 <=? n) && (n <=? 70))%N then Some (n - 55)%N
  else None.

(** [parseInt] of a group of two such characters. *)
Definition hexPair (hi lo : ascii) : option N :=
  match hexDigit hi, hexDigit lo with
  | Some h, Some l => Some (16 * h + l)%N
  | _, _ => None
  end.

(** The groups of [/^#?([a-f\d]{2})([a-f\d]{2})([a-f\d]{2})$/i], parsed. *)
Definition hexGroups (hex : string) : option (N * N * N) :=
  let body := match hex with
              | String "#" rest => rest
              | _ => hex
              end in
  match body with
  | String r1 (String r2 (String g1 (String g2 (String b1 (String b2 ""))))) =>
      match hexPair r1 r2, hexPair g1 g2, hexPair b1 b2 with
      | Some r, Some g, Some b => Some (r, g, b)
      | _, _, _ => None
      end
  | _ => None
  end.

Definition decimal (n : N) : string := NilZero.string_of_uint (N.to_uint n).

Definition rgb (r g b : N) : string :=
  "rgb(" ++ decimal r ++ ", " ++ decimal g ++ ", " ++ decimal b ++ ")".

Definition hexToRgb (hex : string) : Outcome string :=
  match hexGroups hex with
  | None => Throw (Error ("invalid hex color: " ++ hex))
  | Some (r, g, b) => Return (rgb r g b)
  end.

(** The usual two-digit notation of a colour component, for the round
    trip: not part of the source. *)
Definition hexChar (upper : bool) (n : N) : ascii :=
  if (n <? 10)%N then ascii_of_N (48 + n)
  else if upper then ascii_of_N (55 + n) else ascii_of_N (87 + n).

Definition hexColour (upper : bool) (r g b : N) : string :=
  String (hexChar upper (r / 16)) (String (hexChar upper (r mod 16))
  (String (hexChar upper (g / 16)) (String (hexChar upper (g mod 16))
  (String (hexChar upper (b / 16)) (String (hexChar upper (b mod 16)) ""))))).

(** ** The location sources and the custom model box *)

Module Coords.
(** [pos.coords], as the location sources hand it to [locationUpdate]. *)
Record t : Type := {
  latitude : num;
  longitude : num;
  heading : num;
  speed : num
}.
End Coords.

(** What these callers hand to the dispatcher.  [Navigation] wraps the
    actions the store tells apart; the others belong to other stores. *)
Inductive Dispatch : Type :=
| ZoomMapToPoint (coordinate : Coordinate) (zoom pitch : num)
    (isSmooth : bool) (heading : num)
| ErrorAction (message : string)
| DismissLastError
| SetCustomModelWith (model : option CustomModel)
    (valid issueRouteRequest : bool)
| Navigation (action : Action).

(** How the store sees a dispatched action: by its [instanceof] tests. *)
Definition forStore (d : Dispatch) : Action :=
  match d with
  | Navigation a => a
  | SetCustomModelWith model valid _ => SetCustomModel model valid
  | ZoomMapToPoint _ _ _ _ _ | ErrorAction _ | DismissLastError => OtherAction
  end.

(** The truth value of a number, [null] or [undefined] in a condition. *)
Definition truthy (a : num) : bool :=
  match a with
  | Num q => negb (Qeq_bool q 0)
  | _ => false
  end.

(** [locationUpdate], the callback of both location sources. *)
Definition locationUpdate (pos : Coords.t) : list Dispatch :=
  let c := {| lat := Coords.latitude pos; lng := Coords.longitude pos |} in
  [ZoomMapToPoint c (Num 17) (Num 50) true (Coords.heading pos);
   Navigation
     (LocationUpdate c (Coords.speed pos)
        (if truthy (Coords.heading pos) then Coords.heading pos else Num 0))].

(** [calcOrientation], [toDegrees] and [toNorthBased] of [GeoMethods]. *)
Class Orientation : Type := {
  calcOrientation : num -> num -> num -> num -> num;
  toDegrees : num -> num;
  toNorthBased : num -> num
}.

(** The loop of [initFake] that fills [latlon], from index [idx] on:
    [prev] is [coords[idx - 1]] and [random n] the result of the [n]-th
    call of [Math.random]. *)
Fixpoint fakeTable {o : Orientation} (random : nat -> num) (idx : nat)
    (prev : option (list num)) (coords : list (list num))
  : list (list num) :=
  match coords with
  | [] => []
  | p :: rest =>
      let lat := JS.add (JS.getNum p 1)
                        (JS.mul (Num 0.0001) (random (2 * idx)%nat)) in
      let lon := JS.add (JS.getNum p 0)
                        (JS.mul (Num 0.0001) (random (2 * idx + 1)%nat)) in
      let heading :=
        match prev with
        | Some q =>
            toDegrees
              (toNorthBased
                 (calcOrientation (JS.getNum q 1) (JS.getNum q 0) lat lon))
        | None => Num 0
        end in
      [lat; lon; heading; Num 4] :: fakeTable random (S idx) (Some p) rest
  end.

(** The position built from [latlon[currentIndex]]. *)
Definition fixAt (latlon : list (list num)) (currentIndex : nat)
  : Outcome Coords.t :=
  match nth_error latlon currentIndex with
  | Some row =>
      Return {| Coords.latitude := JS.getNum row 0;
                Coords.longitude := JS.getNum row 1;
                Coords.heading := JS.getNum row 2;
                Coords.speed := JS.getNum row 3 |}
  | None => Throw TypeError
  end.

(** [currentIndex++; currentIndex %= latlon.length], in the timer, which
    only runs over a table that is not empty. *)
Definition nextIndex (latlon : list (list num)) (currentIndex : nat) : nat :=
  (currentIndex + 1) mod List.length latlon.

(** [initFake] up to the timer, on the paths of the response, each given
    by its [points.coordinates]: the table and the first dispatches. *)
Definition initFake {o : Orientation} (random : nat -> num)
    (paths : list (list (list num)))
  : Outcome (list (list num) * list Dispatch) :=
  match paths with
  | [] => Throw TypeError
  | coords :: _ =>
      let latlon := fakeTable random 0 None coords in
      match fixAt latlon 0 with
      | Throw e => Throw e
      | Return pos => Return (latlon, locationUpdate pos)
      end
  end.

(** The dispatches of the [n]-th run of the timer. *)
Definition replayed (latlon : list (list num)) (n : nat)
  : Outcome (list Dispatch) :=
  match fixAt latlon (Nat.iter n (nextIndex latlon) 0%nat) with
  | Throw e => Throw e
  | Return pos => Return (locationUpdate pos)
  end.


(** A stand-in for the orientation functions in the examples: every
    bearing is 0. *)
Definition flatOrientation : Orientation :=
  {| calcOrientation := fun _ _ _ _ => Num 0;
     toDegrees := fun a => a;
     toNorthBased := fun a => a |}.

(** * Properties *)

(** ** The comparisons decide the order *)

Lemma lt_iff (a b : num) : JS.lt a b = true <-> JSProp.Lt a b.
Proof.
  destruct a as [| |x], b as [| |y]; simpl;
    try (split; [discriminate | contradiction]).
  unfold JS.lt; simpl. rewrite Qlt_alt.
  destruct (x ?= y)%Q; split; congruence.
Qed.

Lemma gt_iff (a b : num) : JS.gt a b = true <-> JSProp.Gt a b.
Proof.
  unfold JSProp.Gt.
  destruct a as [| |x], b as [| |y]; simpl;
    try (split; [discriminate | contradiction]).
  unfold JS.gt; simpl. rewrite Qgt_alt.
  destruct (x ?= y)%Q; split; congruence.
Qed.

Lemma le_iff (a b : num) : JS.le a b = true <-> JSProp.Le a b.
Proof.
  destruct a as [| |x], b as [| |y]; simpl;
    try (split; [discriminate | contradiction]).
  unfold JS.le; simpl. rewrite Qle_alt.
  destruct (x ?= y)%Q; split; congruence.
Qed.

Lemma lt_false_iff (a b : num) : JS.lt a b = false <-> ~ JSProp.Lt a b.
Proof.
  rewrite <- lt_iff. destruct (JS.lt a b); split; congruence.
Qed.

Section WaypointSkip.

Context {ext : Externals}.

(** C2.  [skipWaypoint] answers true exactly when the previous distance
    to the waypoint is below 50, or the straight-line distance of the new
    fix to the waypoint is below 50, or both are below 80.  A previous
    distance of 40 gives true; 100 with a straight-line distance of 60
    gives false; 70 with 75 gives true. *)
Theorem skipWaypoint_iff :
  forall (p : num) (w stateCoord c : Coordinate),
    (skipWaypoint p w stateCoord c = true <->
       JSProp.Lt p (Num 50)
       \/ JSProp.Lt (calcDist c w) (Num 50)
       \/ (JSProp.Lt p (Num 80) /\ JSProp.Lt (calcDist c w) (Num 80)))
    /\ skipWaypoint (Num 40) w stateCoord c = true
    /\ (calcDist c w = Num 60 ->
        skipWaypoint (Num 100) w stateCoord c = false)
    /\ (calcDist c w = Num 75 ->
        skipWaypoint (Num 70) w stateCoord c = true).
Proof.
  intros p w sc c. repeat split.
  - unfold skipWaypoint.
    destruct (JS.lt p (Num 50)) eqn:Hp50.
    + intros _. left. now apply lt_iff.
    + destruct (JS.lt (calcDist c w) (Num 50)) eqn:Hs50.
      * intros _. right; left. now apply lt_iff.
      * rewrite andb_true_iff, !lt_iff. intros H. right; right. exact H.
  - unfold skipWaypoint. rewrite <- !lt_iff.
    intros [H | [H | [H1 H2]]].
    + now rewrite H.
    + rewrite H. now destruct (JS.lt p (Num 50)).
    + rewrite H1, H2.
      now destruct (JS.lt p (Num 50)), (JS.lt (calcDist c w) (Num 50)).
  - intros H. unfold skipWaypoint. now rewrite H.
  - intros H. unfold skipWaypoint. now rewrite H.
Qed.

End WaypointSkip.

Lemma skipWaypoint_iff_witness :
  @calcDist axisGeo (at_ 60 0) (at_ 0 0) = Num 60
  /\ @skipWaypoint axisGeo (Num 100) (at_ 0 0) (at_ 500 0) (at_ 60 0) = false
  /\ @calcDist axisGeo (at_ 0 75) (at_ 0 0) = Num 75
  /\ @skipWaypoint axisGeo (Num 70) (at_ 0 0) (at_ 500 0) (at_ 0 75) = true.
Proof.
  split; [reflexivity | split; [| split; [reflexivity |]]].
  - apply (proj1 (proj2 (proj2
      (@skipWaypoint_iff axisGeo (Num 100) (at_ 0 0) (at_ 500 0) (at_ 60 0))))).
    reflexivity.
  - apply (proj2 (proj2 (proj2
      (@skipWaypoint_iff axisGeo (Num 70) (at_ 0 0) (at_ 500 0) (at_ 0 75))))).
    reflexivity.
Defined.

Section Frames.

Context {ext : Externals}.

Local Abbreviation State := TurnNavigationStoreState.

(** C9.  A [TurnNavigationStop] returns a state whose [showUI] and
    [started] are false and whose [speed] and [heading] are 0; every
    other field is the one of the state before, so the paths and the
    profile survive the stop.  The only effect is the call of [stop]. *)
Theorem stop_changes_four_fields :
  forall st : State,
  exists st' : State,
    receive st TurnNavigationStop = (Return st', [StopDevice])
    /\ showUI st' = false /\ started st' = false
    /\ speed st' = Num 0 /\ heading st' = Num 0
    /\ coordinate st' = coordinate st
    /\ initialPath st' = initialPath st
    /\ activePath st' = activePath st
    /\ activeProfile st' = activeProfile st
    /\ customModel st' = customModel st
    /\ rerouteInProgress st' = rerouteInProgress st
    /\ instruction st' = instruction st
    /\ pathDetails st' = pathDetails st
    /\ settings st' = settings st
    /\ oldTiles st' = oldTiles st.
Proof.
  intros st. exists (stopped st). repeat split.
Qed.

(** C10.  A [SetSelectedPath] while [showUI] is true throws and leaves
    the state of the store as it was; while [showUI] is false it sets
    [initialPath] and [activePath] to the path of the action, empties the
    instruction and path-details snapshots and keeps every other
    field. *)
Theorem setSelectedPath_throws_or_selects :
  forall (w : Store) (p : Path),
    let st := state w in
    let w' := step w (Dispatched (SetSelectedPath p)) in
    if showUI st then
      receive st (SetSelectedPath p)
      = (Throw (Error "Changing path while turn navigation should not happen"),
         [])
      /\ state w' = st
      /\ effects w' = effects w
      /\ inFlight w' = inFlight w
    else
      receive st (SetSelectedPath p) = (Return (state w'), [])
      /\ initialPath (state w') = Some p
      /\ activePath (state w') = Some p
      /\ instruction (state w') = emptyInstruction
      /\ pathDetails (state w') = emptyPathDetails
      /\ showUI (state w') = false
      /\ started (state w') = started st
      /\ oldTiles (state w') = oldTiles st
      /\ coordinate (state w') = coordinate st
      /\ speed (state w') = speed st
      /\ heading (state w') = heading st
      /\ activeProfile (state w') = activeProfile st
      /\ customModel (state w') = customModel st
      /\ rerouteInProgress (state w') = rerouteInProgress st
      /\ settings (state w') = settings st
      /\ uncaught w' = uncaught w.
Proof.
  intros w p st w'. subst st w'.
  unfold step, dispatch, receive; simpl.
  destruct (showUI (state w)) eqn:Hui; simpl.
  - rewrite !app_nil_r. repeat split.
  - repeat split. exact Hui.
Qed.

End Frames.

(** ** Facts about the parts of the [LocationUpdate] branch *)

Ltac split_ifs :=
  repeat match goal with
         | |- context [if ?b then _ else _] => destruct b eqn:?
         | |- context [match ?o with Some _ => _ | None => _ end] =>
             destruct o eqn:?
         end.

Section LocationUpdateFacts.

Context {ext : Externals}.

Local Abbreviation State := TurnNavigationStoreState.

Lemma getWaypoint_cases (path : Path) (i : num) :
  (exists c, JS.get (snapped_waypoints path) i = Some c
             /\ getWaypoint path i
                = (Return {| lng := JS.getNum c 0; lat := JS.getNum c 1 |}, []))
  \/ (JS.get (snapped_waypoints path) i = None
      /\ getWaypoint path i = (Throw TypeError, [])).
Proof.
  unfold getWaypoint.
  destruct (JS.get (snapped_waypoints path) i) as [c|].
  - left. exists c. split; reflexivity.
  - right. split; reflexivity.
Qed.

(** A committed fix calls the synthesizer only. *)
Lemma announce_requests (ts st : State) (avg : num)
    (instr : CurrentInstruction.t) (next : Instruction.t) :
  requests (snd (announce ts st avg instr next)) = []
  /\ exists u, fst (announce ts st avg instr next) = Return u.
Proof.
  unfold announce, synthesize, bind, emit, ret.
  split_ifs; simpl; split; try reflexivity; eexists; reflexivity.
Qed.

Lemma commitBranch_requests (ts st : State) (path : Path)
    (instr : CurrentInstruction.t) (c : Coordinate) (sp hd : num) :
  requests (snd (commitBranch ts st path instr c sp hd)) = [].
Proof.
  unfold commitBranch.
  destruct (JS.lt (CurrentInstruction.index instr) (Num 0)); [reflexivity |].
  destruct (JS.get (instructions path) (CurrentInstruction.index instr));
    [| reflexivity].
  destruct (announce_requests ts st
              (fst (fst (fst (currentDetails path c)))) instr t) as [Hr [u Hu]].
  unfold bind at 1.
  destruct (announce ts st (fst (fst (fst (currentDetails path c)))) instr t)
    as [o effs].
  simpl in Hr, Hu. subst o. simpl. now rewrite app_nil_r.
Qed.

(** What a successful projection returns. *)
Lemma projectFix_returns (st : State) (initial active : Path) (c : Coordinate)
    (path : Path) (instr : CurrentInstruction.t) (skip : bool)
    (effs : list Effect) :
  projectFix st initial active c = (Return (path, instr, skip), effs) ->
  effs = []
  /\ (path = active \/ path = initial)
  /\ instr = getCurrentInstruction (instructions path) c
  /\ exists w,
       JS.get (snapped_waypoints path) (CurrentInstruction.nextWaypointIndex instr)
       = Some w
       /\ skip = skipWaypoint (distanceToWaypoint (instruction st))
                   {| lng := JS.getNum w 0; lat := JS.getNum w 1 |}
                   (coordinate st) c.
Proof.
  unfold projectFix.
  destruct (getWaypoint_cases active
              (CurrentInstruction.nextWaypointIndex
                 (getCurrentInstruction (instructions active) c)))
    as [(w & Hw & ->) | [_ ->]]; [| discriminate].
  unfold bind at 1.
  match goal with |- context [if ?b then _ else _] => destruct b end.
  - destruct (getWaypoint_cases initial
                (CurrentInstruction.nextWaypointIndex
                   (getCurrentInstruction (instructions initial) c)))
      as [(w' & Hw' & ->) | [_ ->]]; [| discriminate].
    simpl. intros H. injection H as <- <- <- <-.
    repeat split; auto. exists w'. split; [exact Hw' | reflexivity].
  - simpl. intros H. injection H as <- <- <- <-.
    repeat split; auto. exists w. split; [exact Hw | reflexivity].
Qed.

End LocationUpdateFacts.

(** ** Array indices *)

Lemma arrayIndex_inv (a : num) (n : nat) :
  JS.arrayIndex a = Some n ->
  exists x, a = Num x /\ (x == inject_Z (Z.of_nat n))%Q.
Proof.
  destruct a as [| |x]; try discriminate.
  unfold JS.arrayIndex. intros H.
  destruct (Qred x) as [r d] eqn:Hred. cbn [Qnum Qden] in H.
  destruct (Pos.eqb_spec d 1) as [-> |]; destruct (Z.leb_spec 0 r);
    cbn [andb] in H; try discriminate.
  injection H as <-. exists x. split; [reflexivity |].
  rewrite <- (Qred_correct x), Hred.
  rewrite Z2Nat.id by assumption. reflexivity.
Qed.

Lemma Qred_inject_Z (z : Z) : Qred (inject_Z z) = inject_Z z.
Proof.
  unfold Qred, inject_Z.
  generalize (Z.ggcd_gcd z 1) (Z.ggcd_correct_divisors z 1).
  destruct (Z.ggcd z 1) as [g [aa bb]]. simpl.
  intros Hg [Ha Hb]. rewrite Z.gcd_1_r in Hg. subst g.
  rewrite Z.mul_1_l in Ha, Hb. now subst.
Qed.

Lemma arrayIndex_of_nat (x : Q) (n : nat) :
  (x == inject_Z (Z.of_nat n))%Q -> JS.arrayIndex (Num x) = Some n.
Proof.
  intros H. unfold JS.arrayIndex.
  rewrite (Qred_complete _ _ H).
  rewrite Qred_inject_Z.
  cbn [Qnum Qden inject_Z]. rewrite Pos.eqb_refl.
  destruct (Z.leb_spec 0 (Z.of_nat n)); [| lia].
  cbn [andb]. now rewrite Nat2Z.id.
Qed.

Lemma get_next {A : Type} (arr : list A) (i : num) (a : A) :
  JS.get arr i = Some a ->
  JS.lt (JS.add i (Num 1)) (JS.length arr) = true ->
  exists a', JS.get arr (JS.add i (Num 1)) = Some a'.
Proof.
  unfold JS.get. destruct (JS.arrayIndex i) as [n|] eqn:Hi; [| discriminate].
  destruct (arrayIndex_inv _ _ Hi) as (x & -> & Hx).
  intros _ Hlt. apply lt_iff in Hlt. simpl in Hlt.
  assert (Hn : (x + 1 == inject_Z (Z.of_nat (S n)))%Q).
  { rewrite Hx, Nat2Z.inj_succ. unfold Z.succ. rewrite inject_Z_plus.
    reflexivity. }
  simpl JS.add. rewrite (arrayIndex_of_nat _ _ Hn).
  rewrite Hn in Hlt. rewrite <- Zlt_Qlt in Hlt.
  destruct (nth_error arr (S n)) as [a'|] eqn:Hnth; [now exists a' |].
  apply nth_error_None in Hnth. lia.
Qed.

Section Advance.

Context {ext : Externals}.

(** The waypoint the reducer routes to exists whenever the projection
    succeeded. *)
Lemma advanceWaypoint_defined (path : Path) (instr : CurrentInstruction.t)
    (skip : bool) (w : list num) :
  JS.get (snapped_waypoints path) (CurrentInstruction.nextWaypointIndex instr)
  = Some w ->
  exists w',
    JS.get (snapped_waypoints path)
      (CurrentInstruction.nextWaypointIndex
         (fst (advanceWaypoint path instr skip)))
    = Some w'.
Proof.
  intros Hw. unfold advanceWaypoint.
  destruct skip; [| now exists w].
  destruct (JS.lt _ _) eqn:Hlt; [| now exists w].
  simpl. exact (get_next _ _ _ Hw Hlt).
Qed.

End Advance.

(** ** The reroute decision *)

Section RerouteDecision.

Context {ext : Externals}.

Local Abbreviation State := TurnNavigationStoreState.

Lemma bind_ret_l {A B : Type} (a : A) (k : A -> M B) : bind (ret a) k = k a.
Proof. unfold bind, ret. now destruct (k a). Qed.

Lemma reduceLocationUpdate_projected (st : State) (c : Coordinate) (sp hd : num)
    (path : Path) (instr : CurrentInstruction.t) (skip : bool) :
  Projects st c path instr skip ->
  receive st (LocationUpdate c sp hd)
  = if rerouteCondition st st (fst (advanceWaypoint path instr skip))
         (snd (advanceWaypoint path instr skip))
    then rerouteBranch st path (fst (advanceWaypoint path instr skip)) c sp hd
    else commitBranch st st path (fst (advanceWaypoint path instr skip)) c sp hd.
Proof.
  intros (initial & active & Hi & Ha & Hp & Hproj).
  unfold receive, reduce, reduceLocationUpdate. rewrite Hi, Ha.
  destruct (String.eqb_spec (activeProfile st) ""); [contradiction |].
  rewrite Hproj. change (Return (path, instr, skip), [])
    with (ret (A := Path * CurrentInstruction.t * bool) (path, instr, skip)).
  rewrite bind_ret_l.
  now destruct (advanceWaypoint path instr skip).
Qed.

Lemma rerouteBranch_result (st : State) (path : Path)
    (instr : CurrentInstruction.t) (c : Coordinate) (sp hd : num)
    (w : list num) :
  JS.get (snapped_waypoints path) (CurrentInstruction.nextWaypointIndex instr)
  = Some w ->
  rerouteBranch st path instr c sp hd
  = (Return (rerouted st (negb (rerouteInProgress st)) c sp hd),
     if rerouteInProgress st then []
     else [RouteRequest
             (routingArgs st c
                {| lng := JS.getNum w 0; lat := JS.getNum w 1 |} hd)]).
Proof.
  intros Hw. unfold rerouteBranch, getWaypoint. rewrite Hw.
  now destruct (rerouteInProgress st).
Qed.

Lemma Projects_waypoint (st : State) (c : Coordinate) (path : Path)
    (instr : CurrentInstruction.t) (skip : bool) :
  Projects st c path instr skip ->
  exists w,
    JS.get (snapped_waypoints path) (CurrentInstruction.nextWaypointIndex instr)
    = Some w.
Proof.
  intros (initial & active & _ & _ & _ & Hproj).
  destruct (projectFix_returns _ _ _ _ _ _ _ _ Hproj)
    as (_ & _ & _ & w & Hw & _).
  now exists w.
Qed.

(** C8.  When a skip is indicated and the next waypoint index plus one is
    not below the number of snapped waypoints, the skip is cancelled: the
    index stays, and the fix is treated like one without a skip, so that
    no routing request is issued unless the deviation test asks for one.
    Otherwise the index advances by exactly one and the fix takes the
    reroute branch towards that waypoint. *)
Theorem skip_cancelled_at_last_waypoint :
  forall (st : State) (c : Coordinate) (sp hd : num) (path : Path)
         (instr : CurrentInstruction.t),
    let next := JS.add (CurrentInstruction.nextWaypointIndex instr) (Num 1) in
    let count := JS.length (snapped_waypoints path) in
    (~ JSProp.Lt next count ->
       advanceWaypoint path instr true = (instr, false)
       /\ (Projects st c path instr true ->
           receive st (LocationUpdate c sp hd)
           = (if showUI st
                 && distanceToRouteChange st
                      (CurrentInstruction.distanceToRoute instr)
              then rerouteBranch st path instr c sp hd
              else commitBranch st st path instr c sp hd)
           /\ (showUI st
               && distanceToRouteChange st
                    (CurrentInstruction.distanceToRoute instr) = false ->
               requests (snd (receive st (LocationUpdate c sp hd))) = [])))
    /\ (JSProp.Lt next count ->
          advanceWaypoint path instr true
          = (withNextWaypointIndex instr next, true)
          /\ (exists x : Q,
                CurrentInstruction.nextWaypointIndex instr = Num x
                /\ CurrentInstruction.nextWaypointIndex
                     (fst (advanceWaypoint path instr true))
                   = Num (x + 1))
          /\ (Projects st c path instr true ->
              exists w : list num,
                JS.get (snapped_waypoints path) next = Some w
                /\ receive st (LocationUpdate c sp hd)
                   = (Return (rerouted st (negb (rerouteInProgress st))
                                       c sp hd),
                      if rerouteInProgress st then []
                      else [RouteRequest
                              (routingArgs st c
                                 {| lng := JS.getNum w 0;
                                    lat := JS.getNum w 1 |} hd)]))).
Proof.
  intros st c sp hd path instr next count. split.
  - intros Hnlt. apply lt_false_iff in Hnlt.
    assert (Hadv : advanceWaypoint path instr true = (instr, false)).
    { unfold advanceWaypoint. fold next count. now rewrite Hnlt. }
    split; [exact Hadv |].
    intros Hp. rewrite (reduceLocationUpdate_projected _ _ _ _ _ _ _ Hp).
    rewrite Hadv. unfold rerouteCondition. simpl fst; simpl snd.
    rewrite orb_false_r. split; [reflexivity |].
    intros ->. apply commitBranch_requests.
  - intros Hlt. pose proof Hlt as Hlt'. apply lt_iff in Hlt.
    assert (Hadv : advanceWaypoint path instr true
                   = (withNextWaypointIndex instr next, true)).
    { unfold advanceWaypoint. fold next count. now rewrite Hlt. }
    split; [exact Hadv |]. split.
    + rewrite Hadv. subst next.
      destruct (CurrentInstruction.nextWaypointIndex instr) as [| |x];
        try contradiction.
      exists x. split; reflexivity.
    + intros Hp. destruct (Projects_waypoint _ _ _ _ _ Hp) as [w0 Hw0].
      destruct (get_next _ _ _ Hw0 Hlt) as [w Hw]. exists w.
      split; [exact Hw |].
      rewrite (reduceLocationUpdate_projected _ _ _ _ _ _ _ Hp).
      rewrite Hadv. unfold rerouteCondition. simpl fst; simpl snd.
      rewrite orb_true_r. now apply rerouteBranch_result.
Qed.

End RerouteDecision.

Lemma skip_cancelled_at_last_waypoint_witness :
  (* at the last waypoint of a leg: cancelled, committed, no request *)
  (advanceWaypoint (leg 25) (axisProjection [turnRight] (at_ (-990) 0)) true
   = (axisProjection [turnRight] (at_ (-990) 0), false)
   /\ requests
        (snd (@receive axisGeo (guiding (leg 25))
                (LocationUpdate (at_ (-990) 0) (Num 4) (Num 180)))) = [])
  (* at the middle waypoint of a trip: advanced from 1 to 2 *)
  /\ (exists x : Q,
        Num 1 = Num x
        /\ CurrentInstruction.nextWaypointIndex
             (fst (advanceWaypoint trip
                     (axisProjection [turnRight] (at_ (-990) 0)) true))
           = Num (x + 1))
  (* and a request towards waypoint 2 *)
  /\ (exists w : list num,
        JS.get (snapped_waypoints trip) (JS.add (Num 1) (Num 1)) = Some w
        /\ @receive axisGeo (guiding trip)
             (LocationUpdate (at_ (-990) 0) (Num 4) (Num 180))
           = (Return (rerouted (guiding trip) true (at_ (-990) 0)
                        (Num 4) (Num 180)),
              [RouteRequest
                 (routingArgs (guiding trip) (at_ (-990) 0)
                    {| lng := JS.getNum w 0; lat := JS.getNum w 1 |}
                    (Num 180))])).
Proof.
  pose (c := at_ (-990) 0).
  assert (Hleg : @Projects axisGeo (guiding (leg 25)) c (leg 25)
                   (axisProjection [turnRight] c) true).
  { exists (leg 25), (leg 25). repeat split. discriminate. }
  assert (Htrip : @Projects axisGeo (guiding trip) c trip
                    (axisProjection [turnRight] c) true).
  { exists trip, trip. repeat split. discriminate. }
  destruct (@skip_cancelled_at_last_waypoint axisGeo (guiding (leg 25)) c
              (Num 4) (Num 180) (leg 25) (axisProjection [turnRight] c))
    as [Hcancel _].
  destruct (@skip_cancelled_at_last_waypoint axisGeo (guiding trip) c
              (Num 4) (Num 180) trip (axisProjection [turnRight] c))
    as [_ Hadvance].
  assert (Hl : JSProp.Lt
                 (JS.add (CurrentInstruction.nextWaypointIndex
                            (axisProjection [turnRight] c)) (Num 1))
                 (JS.length (snapped_waypoints trip))).
  { vm_compute. reflexivity. }
  split; [| split].
  - assert (Hn : ~ JSProp.Lt
                   (JS.add (CurrentInstruction.nextWaypointIndex
                              (axisProjection [turnRight] c)) (Num 1))
                   (JS.length (snapped_waypoints (leg 25)))).
    { vm_compute. discriminate. }
    destruct (Hcancel Hn) as [Hadv Hred]. split; [exact Hadv |].
    destruct (Hred Hleg) as [_ Hquiet]. apply Hquiet. reflexivity.
  - destruct (Hadvance Hl) as (_ & Hone & _). exact Hone.
  - destruct (Hadvance Hl) as (_ & _ & Hreq). exact (Hreq Htrip).
Defined.

Section RerouteTrigger.

Context {ext : Externals}.

Local Abbreviation State := TurnNavigationStoreState.




End RerouteTrigger.


(** ** The resolution of a reroute *)

Section Resolution.

Context {ext : Externals}.

Local Abbreviation State := TurnNavigationStoreState.

(** C4, as amended.  However the routing request settles, the store ends
    with [rerouteInProgress] false.  [activePath] becomes the first
    candidate exactly when there is one and the last coordinate projects
    onto it with an index that is not negative and lies within its
    instructions; the snapshots are then rebuilt from it.  In every other
    case (negative index, no candidate, failed request, or an index
    outside the instructions, whose error the catch handler receives) the
    state only loses the flag and [activePath] stays. *)
Theorem settle_clears_flag_and_replaces_projected_path :
  forall (w : Store) (result : RouteResult),
    let st := state w in
    let st' := state (settle w result) in
    rerouteInProgress st' = false
    /\ match result with
       | Resolved (p :: _) =>
           let instr :=
             getCurrentInstruction (instructions p) (coordinate st) in
           match
             (if JS.lt (CurrentInstruction.index instr) (Num 0) then None
              else JS.get (instructions p) (CurrentInstruction.index instr))
           with
           | Some next =>
               st' = reroutedOnto st p instr next /\ activePath st' = Some p
           | None =>
               st' = rerouteCleared st /\ activePath st' = activePath st
           end
       | Resolved [] | Rejected =>
           st' = rerouteCleared st /\ activePath st' = activePath st
       end.
Proof.
  intros w result st st'. subst st st'.
  destruct result as [[| p rest] |]; simpl; [auto | | auto].
  unfold onFulfilled, dispatch, receive, reduce, reduceRerouting.
  destruct (JS.lt _ _); simpl; [auto |].
  destruct (JS.get _ _); simpl; auto.
Qed.

End Resolution.

(** C4, counterexample.  A store that guides along [leg 25] leaves the
    road by 100 units and asks for a route; the request resolves with one
    candidate, onto which the last coordinate does not project (index
    -1).  The flag is cleared and [activePath] is still [leg 25]. *)
Lemma resolved_candidate_not_adopted :
  let w := @run axisGeo (boot (guiding (leg 25)))
             [Dispatched (LocationUpdate (at_ 500 100) (Num 4) (Num 180));
              RouteSettled (Resolved [bareLeg])] in
  inFlight w = []
  /\ rerouteInProgress (state w) = false
  /\ activePath (state w) = Some (leg 25)
  /\ activePath (state w) <> Some bareLeg.
Proof.
  cbv zeta. repeat split. discriminate.
Qed.

(** ** What a fix can return *)

Section FixOutcome.

Context {ext : Externals}.

Local Abbreviation State := TurnNavigationStoreState.



Lemma commitBranch_returns (ts st : State) (path : Path)
    (instr : CurrentInstruction.t) (c : Coordinate) (sp hd : num)
    (st2 : State) (effs : list Effect) :
  commitBranch ts st path instr c sp hd = (Return st2, effs) ->
  JS.lt (CurrentInstruction.index instr) (Num 0) = false
  /\ exists next,
       JS.get (instructions path) (CurrentInstruction.index instr) = Some next
       /\ st2 = committed st path instr next c sp hd
       /\ effs = snd (announce ts st
                        (fst (fst (fst (currentDetails path c)))) instr next).
Proof.
  unfold commitBranch.
  destruct (JS.lt (CurrentInstruction.index instr) (Num 0)); [discriminate |].
  destruct (JS.get (instructions path) (CurrentInstruction.index instr))
    as [next|]; [| discriminate].
  destruct (announce_requests ts st
              (fst (fst (fst (currentDetails path c)))) instr next)
    as [_ [u Hu]].
  unfold bind at 1.
  remember (announce ts st (fst (fst (fst (currentDetails path c)))) instr next)
    as r eqn:Hr.
  destruct r as [o effs0].
  simpl in Hu. subst o. simpl. rewrite app_nil_r.
  intros H. injection H as <- <-.
  split; [reflexivity |]. exists next. repeat split. now rewrite <- Hr.
Qed.


End FixOutcome.

(** ** A fix that is queued behind a stop *)

Section FixAfterStop.

Context {ext : Externals}.

Local Abbreviation State := TurnNavigationStoreState.


End FixAfterStop.



(** ** The guidance display *)

Section ShowUI.

Context {ext : Externals}.

Local Abbreviation State := TurnNavigationStoreState.

(** The fix at [c] projects onto [path] with an index that is not
    negative. *)
Lemma valid_index_nonnegative {A : Type} (arr : list A) (i : num) (a : A) :
  JS.get arr i = Some a -> JSProp.Le (Num 0) i.
Proof.
  unfold JS.get. destruct (JS.arrayIndex i) as [n|] eqn:Hi; [| discriminate].
  destruct (arrayIndex_inv _ _ Hi) as (x & -> & Hx). intros _. simpl.
  rewrite Hx. change 0%Q with (inject_Z 0). rewrite <- Zle_Qle. lia.
Qed.



Lemma recordUncaught_state (r : Store * option Exn) :
  state (recordUncaught r) = state (fst r).
Proof. now destruct r as [w [e|]]. Qed.




End ShowUI.

Section ShowUISession.

Context {ext : Externals}.


End ShowUISession.



(** ** The near announcement *)

Lemma gt_false_iff (a b : num) : JS.gt a b = false <-> ~ JSProp.Gt a b.
Proof.
  rewrite <- gt_iff. destruct (JS.gt a b); split; congruence.
Qed.






Section NearAnnouncement.

Context {ext : Externals}.

Local Abbreviation State := TurnNavigationStoreState.




End NearAnnouncement.



(** ** Reroutes in flight *)

Section InFlight.

Context {ext : Externals}.

Local Abbreviation State := TurnNavigationStoreState.

(** A fix that takes the reroute branch while a reroute is marked in
    progress issues no request, and returns the flag as false:
    [rerouteInProgress: queriedAPI]. *)
Lemma rerouteBranch_in_progress (st : State) (path : Path)
    (instr : CurrentInstruction.t) (c : Coordinate) (sp hd : num) :
  rerouteInProgress st = true ->
  rerouteBranch st path instr c sp hd = (Return (rerouted st false c sp hd), [])
  /\ rerouteInProgress (rerouted st false c sp hd) = false.
Proof.
  intros H. unfold rerouteBranch. rewrite H. split; reflexivity.
Qed.

Lemma projectFix_silent (st : State) (initial active : Path)
    (c : Coordinate) :
  snd (projectFix st initial active c) = [].
Proof.
  unfold projectFix, bind.
  destruct (getWaypoint_cases active
              (CurrentInstruction.nextWaypointIndex
                 (getCurrentInstruction (instructions active) c)))
    as [(w & _ & ->) | [_ ->]]; [| reflexivity].
  match goal with |- context [if ?b then _ else _] => destruct b end;
    [| reflexivity].
  destruct (getWaypoint_cases initial
              (CurrentInstruction.nextWaypointIndex
                 (getCurrentInstruction (instructions initial) c)))
    as [(w' & _ & ->) | [_ ->]]; reflexivity.
Qed.

(** While the flag is set, no fix issues a routing request. *)
Lemma no_request_while_marked (st : State) (c : Coordinate) (sp hd : num) :
  rerouteInProgress st = true ->
  requests (snd (receive st (LocationUpdate c sp hd))) = [].
Proof.
  intros Hflag. unfold receive, reduce, reduceLocationUpdate.
  destruct (initialPath st) as [initial|]; [| reflexivity].
  destruct (activePath st) as [active|]; [| reflexivity].
  destruct (activeProfile st =? "")%string; [reflexivity |].
  pose proof (projectFix_silent st initial active c) as Hsilent.
  destruct (projectFix st initial active c) as [[[[path instr] skip] | e] effs].
  - simpl in Hsilent. subst effs. unfold bind.
    destruct (advanceWaypoint path instr skip) as [instr' skip'].
    destruct (rerouteCondition st st instr' skip').
    + now rewrite (proj1 (rerouteBranch_in_progress st path instr' c sp hd
                            Hflag)).
    + pose proof (commitBranch_requests st st path instr' c sp hd) as Hc.
      now destruct (commitBranch st st path instr' c sp hd).
  - simpl in Hsilent. now subst effs.
Qed.

End InFlight.

(** C1, failing run.  A guiding store leaves the road by 100 units and
    stays there for three fixes, while the routing client has not answered.
    The first fix issues a request and sets the flag.  The second fix
    issues none but clears the flag, although the request is still in
    flight.  The third fix therefore issues a second request. *)
Lemma second_request_while_first_in_flight :
  let off := Dispatched (LocationUpdate (at_ 500 100) (Num 4) (Num 180)) in
  let w1 := @run axisGeo (boot (guiding (leg 25))) [off] in
  let w2 := @run axisGeo w1 [off] in
  let w3 := @run axisGeo w2 [off] in
  (List.length (inFlight w1) = 1%nat /\ rerouteInProgress (state w1) = true)
  /\ (List.length (inFlight w2) = 1%nat
      /\ rerouteInProgress (state w2) = false)
  /\ (List.length (inFlight w3) = 2%nat
      /\ rerouteInProgress (state w3) = true)
  /\ uncaught w3 = [].
Proof.
  cbv zeta. repeat split.
Qed.

(** * Further properties of the store *)

Section FixCases.

Context {ext : Externals}.

Local Abbreviation State := TurnNavigationStoreState.

Lemma fix_outcome (st : State) (c : Coordinate) (sp hd : num) :
  FixOutcome st c sp hd (receive st (LocationUpdate c sp hd)).
Proof.
  unfold receive, reduce, reduceLocationUpdate.
  destruct (initialPath st) as [initial|] eqn:Hi; [| apply FixThrows].
  destruct (activePath st) as [active|] eqn:Ha; [| apply FixThrows].
  destruct (String.eqb_spec (activeProfile st) "") as [Hp | Hp];
    [now apply FixIgnored |].
  pose proof (projectFix_silent st initial active c) as Hsilent.
  destruct (projectFix st initial active c) as [[[[path instr] skip] | e] effs]
    eqn:Hproj; simpl in Hsilent; subst effs; [| apply FixThrows].
  destruct (projectFix_returns _ _ _ _ _ _ _ _ Hproj)
    as (_ & Hpath & _ & w0 & Hw0 & _).
  assert (Hpath' : Some path = activePath st \/ Some path = initialPath st)
    by (rewrite Hi, Ha; destruct Hpath as [-> | ->]; auto).
  destruct (advanceWaypoint_defined path instr skip w0 Hw0) as [w Hw].
  unfold bind at 1.
  destruct (advanceWaypoint path instr skip) as [instr' skip'].
  simpl in Hw.
  destruct (rerouteCondition st st instr' skip').
  - rewrite (rerouteBranch_result _ _ _ _ _ _ _ Hw).
    destruct (rerouteInProgress st) eqn:Hflag; simpl.
    + pose proof (FixReroutes st c sp hd path instr' w Hp Hpath' Hw) as H.
      now rewrite Hflag in H.
    + pose proof (FixReroutes st c sp hd path instr' w Hp Hpath' Hw) as H.
      now rewrite Hflag in H.
  - destruct (commitBranch st st path instr' c sp hd) as [[st2|e] effs]
      eqn:Hcb.
    + destruct (commitBranch_returns _ _ _ _ _ _ _ _ _ Hcb)
        as (Hlt & next & Hget & -> & ->).
      simpl. apply FixCommits; auto; congruence.
    + simpl.
      assert (effs = []) as ->; [| apply FixThrows].
      unfold commitBranch, throw in Hcb.
      destruct (JS.lt (CurrentInstruction.index instr') (Num 0));
        [now injection Hcb as _ <- |].
      destruct (JS.get (instructions path) (CurrentInstruction.index instr'))
        as [next|]; [| now injection Hcb as _ <-].
      destruct (announce_requests st st
                  (fst (fst (fst (currentDetails path c)))) instr' next)
        as [_ [u Hu]].
      unfold bind in Hcb.
      destruct (announce st st _ instr' next) as [o effs0].
      simpl in Hu. subst o. discriminate.
Qed.

End FixCases.

Section Requests.

Context {ext : Externals}.

Local Abbreviation State := TurnNavigationStoreState.


(** Actions other than a fix make no call on the routing client or the
    speech synthesizer. *)
Lemma receive_other_quiet (st : State) (a : Action) :
  (forall c sp hd, a <> LocationUpdate c sp hd) ->
  requests (snd (receive st a)) = [] /\ spoken (snd (receive st a)) = [].
Proof.
  intros Hfix. unfold receive.
  destruct a; simpl; auto.
  - destruct (fakeGPS (settings st)); auto.
  - destruct (started st); auto.
  - destruct (showUI st); auto.
  - now contradiction (Hfix position newSpeed newHeading).
  - unfold reduceRerouting.
    destruct (JS.lt _ _); auto. destruct (JS.get _ _); auto.
Qed.



End Requests.


Section Speech.

Context {ext : Externals}.

Local Abbreviation State := TurnNavigationStoreState.

Lemma spoken_app (a b : list Effect) : spoken (a ++ b) = spoken a ++ spoken b.
Proof. unfold spoken. apply flat_map_app. Qed.

(** The near and the far announcement exclude each other. *)
Lemma near_far_exclusive (avg : num) (prev : TNInstructionState)
    (instr : CurrentInstruction.t) :
  nearAnnouncement avg prev instr = true ->
  farAnnouncement avg prev instr = false.
Proof.
  unfold nearAnnouncement, farAnnouncement.
  intros Hnear. apply andb_true_iff in Hnear as [Hle _].
  destruct (JS.gt (CurrentInstruction.distanceToTurn instr)
                  (JS.add (lastAnnounceDistance avg) (Num 50))) eqn:Hgt;
    [| now rewrite andb_false_r].
  exfalso. apply le_iff in Hle. apply gt_iff in Hgt. unfold JSProp.Gt in Hgt.
  destruct (CurrentInstruction.distanceToTurn instr) as [| |d];
    try contradiction.
  destruct (lastAnnounceDistance avg) as [| |t]; try contradiction.
  simpl in Hle, Hgt. lra.
Qed.

Lemma announce_spoken (st : State) (avg : num)
    (instr : CurrentInstruction.t) (next : Instruction.t) :
  (List.length (spoken (snd (announce st st avg instr next))) <= 1)%nat
  /\ (soundEnabled (settings st) = false ->
      spoken (snd (announce st st avg instr next)) = []).
Proof.
  unfold announce, synthesize.
  destruct (soundEnabled (settings st)); [| simpl; split; auto].
  split; [| discriminate].
  destruct (nearAnnouncement avg (instruction st) instr) eqn:Hnear.
  - rewrite (near_far_exclusive _ _ _ Hnear). simpl. lia.
  - destruct (farAnnouncement avg (instruction st) instr); simpl; lia.
Qed.

Lemma fix_spoken (st : State) (c : Coordinate) (sp hd : num) :
  (List.length (spoken (snd (receive st (LocationUpdate c sp hd)))) <= 1)%nat
  /\ (soundEnabled (settings st) = false ->
      spoken (snd (receive st (LocationUpdate c sp hd))) = []).
Proof.
  destruct (fix_outcome st c sp hd); simpl; try (split; [lia | reflexivity]).
  - destruct (rerouteInProgress st); simpl; split; auto.
  - apply announce_spoken.
Qed.

(** X3.  No action makes the store speak more than once: in particular
    the near and the far announcement never fire on the same fix. *)
Theorem at_most_one_utterance_per_action :
  forall (st : State) (a : Action),
    (List.length (spoken (snd (receive st a))) <= 1)%nat
    /\ forall (avg : num) (instr : CurrentInstruction.t),
         nearAnnouncement avg (instruction st) instr
         && farAnnouncement avg (instruction st) instr = false.
Proof.
  intros st a. split.
  - destruct a; try apply fix_spoken;
      match goal with
      | |- context [receive st ?b] =>
          destruct (receive_other_quiet st b) as [_ Hq];
          [intros; discriminate | rewrite Hq; simpl; lia]
      end.
  - intros avg instr.
    destruct (nearAnnouncement avg (instruction st) instr) eqn:Hnear;
      [| reflexivity].
    now rewrite (near_far_exclusive _ _ _ Hnear).
Qed.

End Speech.

(** ** Which action changes which field *)

Ltac frame_case :=
  repeat split; intros; try reflexivity; try congruence;
  try (exfalso;
       match goal with
       | H : forall _, _ <> _ |- _ => eapply H; reflexivity
       | H : forall _ _, _ <> _ |- _ => eapply H; reflexivity
       end).

Section Frame.

Context {ext : Externals}.

Local Abbreviation State := TurnNavigationStoreState.

Lemma receive_frame (st : State) (a : Action) (st' : State)
    (effs : list Effect) :
  receive st a = (Return st', effs) ->
  ((forall u, a <> TurnNavigationSettingsUpdate u) ->
   settings st' = settings st)
  /\ ((forall l, a <> SelectMapLayer l) -> oldTiles st' = oldTiles st)
  /\ ((forall p, a <> SetSelectedPath p) -> initialPath st' = initialPath st)
  /\ ((forall p, a <> SetSelectedPath p) ->
      (forall p, a <> TurnNavigationRerouting p) ->
      activePath st' = activePath st)
  /\ ((forall n, a <> SetVehicleProfile n) ->
      activeProfile st' = activeProfile st)
  /\ ((forall m v, a <> SetCustomModel m v) ->
      customModel st' = customModel st)
  /\ (a <> TurnNavigationStop -> (forall b, a <> TurnNavigationStart b) ->
      started st' = started st).
Proof.
  intros Hr. destruct a.
  - injection Hr as <- _. frame_case.
  - injection Hr as <- _. frame_case.
  - unfold receive, reduce in Hr.
    destruct (fakeGPS (settings st)); injection Hr as <- _; frame_case.
  - unfold receive, reduce in Hr.
    destruct (started st) eqn:Hs; injection Hr as <- _; frame_case.
  - injection Hr as <- _. frame_case.
  - injection Hr as <- _. frame_case.
  - injection Hr as <- _. frame_case.
  - unfold receive, reduce in Hr.
    destruct (showUI st) eqn:Hui; [discriminate |].
    injection Hr as <- _. frame_case.
  - pose proof (fix_outcome st position newSpeed newHeading) as Hout.
    rewrite Hr in Hout. inversion Hout; subst; frame_case.
  - unfold receive, reduce, reduceRerouting in Hr.
    destruct (JS.lt _ _); [injection Hr as <- _; frame_case |].
    destruct (JS.get _ _); [| discriminate].
    injection Hr as <- _. frame_case.
  - injection Hr as <- _. frame_case.
Qed.

(** X6.  Each of these fields changes only by its own actions.  A
    returning action that changes [settings] is a settings update; one
    that changes [oldTiles] is a [SelectMapLayer] outside navigation; one
    that changes [initialPath] is a [SetSelectedPath] while [showUI] is
    false; one that changes [activePath] is a [SetSelectedPath] or a
    [TurnNavigationRerouting]; [activeProfile] and [customModel] change by
    [SetVehicleProfile] and [SetCustomModel] only, and [started] by start
    and stop.  A [LocationUpdate] changes none of them: when the reducer
    switches back to [initialPath] for a fix, [activePath] still keeps the
    leg. *)
Theorem fields_change_only_by_their_actions :
  forall (st : State) (a : Action) (st' : State) (effs : list Effect),
    receive st a = (Return st', effs) ->
    (settings st' <> settings st ->
     exists u, a = TurnNavigationSettingsUpdate u)
    /\ (oldTiles st' <> oldTiles st ->
        a = SelectMapLayer (oldTiles st') /\ started st = false)
    /\ (initialPath st' <> initialPath st ->
        exists p, a = SetSelectedPath p /\ showUI st = false
                  /\ initialPath st' = Some p /\ activePath st' = Some p)
    /\ (activePath st' <> activePath st ->
        exists p, (a = SetSelectedPath p \/ a = TurnNavigationRerouting p)
                  /\ activePath st' = Some p)
    /\ (activeProfile st' <> activeProfile st ->
        a = SetVehicleProfile (activeProfile st'))
    /\ (customModel st' <> customModel st -> exists m v, a = SetCustomModel m v)
    /\ (started st' <> started st ->
        a = TurnNavigationStop \/ exists b, a = TurnNavigationStart b)
    /\ (forall c sp hd, a = LocationUpdate c sp hd ->
        settings st' = settings st /\ oldTiles st' = oldTiles st
        /\ initialPath st' = initialPath st /\ activePath st' = activePath st
        /\ activeProfile st' = activeProfile st
        /\ customModel st' = customModel st /\ started st' = started st).
Proof.
  intros st a st' effs Hr.
  destruct (receive_frame _ _ _ _ Hr)
    as (Hset & Htiles & Hinit & Hact & Hprof & Hcm & Hstart).
  repeat split.
  - intros Hne. destruct a; try (exfalso; apply Hne, Hset; discriminate).
    now eexists.
  - destruct a; try (exfalso; apply H, Htiles; discriminate).
    unfold receive, reduce in Hr.
    destruct (started st); injection Hr as <- _; simpl in *; congruence.
  - destruct a; try (exfalso; apply H, Htiles; discriminate).
    unfold receive, reduce in Hr.
    destruct (started st); injection Hr as <- _; simpl in *; congruence.
  - intros Hne. destruct a; try (exfalso; apply Hne, Hinit; discriminate).
    unfold receive, reduce in Hr.
    destruct (showUI st) eqn:Hui; [discriminate |].
    injection Hr as <- _. exists path. auto.
  - intros Hne.
    destruct a;
      try (exfalso; apply Hne, Hact; discriminate).
    + unfold receive, reduce in Hr.
      destruct (showUI st); [discriminate |]. injection Hr as <- _.
      exists path. auto.
    + exists path. split; [auto |].
      unfold receive, reduce, reduceRerouting in Hr.
      destruct (JS.lt _ _);
        [injection Hr as <- _; now contradiction Hne |].
      destruct (JS.get _ _); [| discriminate].
      now injection Hr as <- _.
  - intros Hne. destruct a; try (exfalso; apply Hne, Hprof; discriminate).
    now injection Hr as <- _.
  - intros Hne. destruct a; try (exfalso; apply Hne, Hcm; discriminate).
    now do 2 eexists.
  - intros Hne.
    destruct a; try (exfalso; apply Hne, Hstart; discriminate); eauto.
  - subst a. apply Hset. discriminate.
  - subst a. apply Htiles. discriminate.
  - subst a. apply Hinit. discriminate.
  - subst a. apply Hact; discriminate.
  - subst a. apply Hprof. discriminate.
  - subst a. apply Hcm. discriminate.
  - subst a. apply Hstart; discriminate.
Qed.

End Frame.

Lemma fields_change_only_by_their_actions_witness :
  exists (st' : TurnNavigationStoreState) (effs : list Effect),
    @receive axisGeo (waiting trip bareLeg)
      (LocationUpdate (at_ 30 0) (Num 4) (Num 180)) = (Return st', effs)
    /\ showUI st' = true
    /\ initialPath st' = Some trip
    /\ activePath st' = Some bareLeg.
Proof.
  eexists. eexists. split; [reflexivity |]. split; [reflexivity |].
  destruct (@fields_change_only_by_their_actions axisGeo
              (waiting trip bareLeg)
              (LocationUpdate (at_ 30 0) (Num 4) (Num 180)) _ _ eq_refl)
    as (_ & _ & _ & _ & _ & _ & _ & Hfix).
  destruct (Hfix _ _ _ eq_refl) as (_ & _ & Hinit & Hact & _).
  split; [exact Hinit | exact Hact].
Defined.

Section Mute.

Context {ext : Externals}.

Local Abbreviation State := TurnNavigationStoreState.

Lemma receive_mute (st : State) (a : Action) :
  soundEnabled (settings st) = false -> spoken (snd (receive st a)) = [].
Proof.
  intros Hoff.
  destruct a; try (now apply fix_spoken);
    match goal with
    | |- context [receive st ?b] =>
        destruct (receive_other_quiet st b) as [_ Hq];
        [intros; discriminate | exact Hq]
    end.
Qed.

Lemma dispatch_mute (w : Store) (a : Action) :
  soundEnabled (settings (state w)) = false ->
  spoken (effects (fst (dispatch w a))) = spoken (effects w)
  /\ ((forall u, a <> TurnNavigationSettingsUpdate u) ->
      soundEnabled (settings (state (fst (dispatch w a)))) = false).
Proof.
  intros Hoff. unfold dispatch.
  pose proof (receive_mute (state w) a Hoff) as Hquiet.
  destruct (receive (state w) a) as [[st'|e] effs] eqn:Hr;
    simpl in *; rewrite spoken_app, Hquiet, app_nil_r.
  - split; [reflexivity |]. intros Hnot.
    destruct (receive_frame _ _ _ _ Hr) as (Hset & _).
    now rewrite Hset.
  - auto.
Qed.

Lemma recordUncaught_effects (r : Store * option Exn) :
  effects (recordUncaught r) = effects (fst r).
Proof. now destruct r as [w [e|]]. Qed.

Lemma settle_mute (w : Store) (result : RouteResult) :
  soundEnabled (settings (state w)) = false ->
  spoken (effects (settle w result)) = spoken (effects w)
  /\ soundEnabled (settings (state (settle w result))) = false.
Proof.
  intros Hoff.
  assert (Hfail : forall w0 : Store,
            soundEnabled (settings (state w0)) = false ->
            spoken (effects (recordUncaught (onRejected w0)))
            = spoken (effects w0)
            /\ soundEnabled
                 (settings (state (recordUncaught (onRejected w0)))) = false).
  { intros w0 H0. rewrite recordUncaught_effects, recordUncaught_state.
    unfold onRejected.
    destruct (dispatch_mute w0 TurnNavigationReroutingFailed H0) as [Hs Hk].
    split; [exact Hs | apply Hk; discriminate]. }
  destruct result as [[| p rest] |]; unfold settle, onFulfilled.
  - destruct (dispatch_mute w TurnNavigationReroutingFailed Hoff) as [Hs Hk].
    destruct (dispatch w TurnNavigationReroutingFailed) as [w' [e|]];
      cbn [fst] in Hs, Hk.
    + destruct (Hfail w' (Hk ltac:(discriminate))) as [Hs' Hk'].
      split; [now rewrite Hs' | exact Hk'].
    + split; [exact Hs | apply Hk; discriminate].
  - destruct (dispatch_mute w (TurnNavigationRerouting p) Hoff) as [Hs Hk].
    destruct (dispatch w (TurnNavigationRerouting p)) as [w' [e|]];
      cbn [fst] in Hs, Hk.
    + destruct (Hfail w' (Hk ltac:(discriminate))) as [Hs' Hk'].
      split; [now rewrite Hs' | exact Hk'].
    + unfold synthesize. rewrite (Hk ltac:(discriminate)).
      cbn [state effects snd ret]. rewrite app_nil_r.
      split; [exact Hs | apply Hk; discriminate].
  - now apply Hfail.
Qed.

Lemma step_mute (w : Store) (ev : Event) :
  soundEnabled (settings (state w)) = false ->
  spoken (effects (step w ev)) = spoken (effects w)
  /\ (isSettingsUpdate ev = false ->
      soundEnabled (settings (state (step w ev))) = false).
Proof.
  intros Hoff. destruct ev as [a | result]; simpl.
  - rewrite recordUncaught_effects, recordUncaught_state.
    destruct (dispatch_mute w a Hoff) as [Hs Hk].
    split; [exact Hs |]. intros Hev. apply Hk. intros u ->. discriminate.
  - destruct (inFlight w) as [| r rest]; [auto |].
    destruct (settle_mute
                {| state := state w; inFlight := rest; effects := effects w;
                   uncaught := uncaught w |} result Hoff) as [Hs Hk].
    auto.
Qed.

Lemma run_mute (evs : list Event) :
  forall w : Store,
    soundEnabled (settings (state w)) = false ->
    forallb (fun ev => negb (isSettingsUpdate ev)) evs = true ->
    spoken (effects (run w evs)) = spoken (effects w)
    /\ soundEnabled (settings (state (run w evs))) = false.
Proof.
  induction evs as [| ev rest IH]; intros w Hoff Hall; [auto |].
  simpl in Hall. apply andb_true_iff in Hall as [Hev Hrest].
  apply negb_true_iff in Hev.
  destruct (step_mute w ev Hoff) as [Hs Hk].
  simpl. destruct (IH (step w ev) (Hk Hev) Hrest) as [Hs' Hk'].
  split; [now rewrite Hs' | exact Hk'].
Qed.

(** X2.  Muting works: once [soundEnabled] is false, nothing is handed to
    the speech synthesizer, whatever actions are dispatched and however
    routing requests settle, until a settings update arrives.  In
    particular a store constructed for the fake GPS, which starts with
    [soundEnabled] false, stays silent until then. *)
Theorem nothing_spoken_while_muted :
  forall (evs : list Event) (w : Store),
    forallb (fun ev => negb (isSettingsUpdate ev)) evs = true ->
    (soundEnabled (settings (state w)) = false ->
     spoken (effects (run w evs)) = spoken (effects w)
     /\ soundEnabled (settings (state (run w evs))) = false)
    /\ forall tiles : string,
         spoken (effects (run (boot (initialState true tiles)) evs)) = [].
Proof.
  intros evs w Hall. split.
  - intros Hoff. now apply run_mute.
  - intros tiles.
    now destruct (run_mute evs (boot (initialState true tiles)) eq_refl Hall).
Qed.

(** X21.  When a routing request resolves with at least one candidate and
    sound is enabled, the store says the reroute phrase whenever the
    reducer did not throw: when it adopted the candidate, and also when it
    left [activePath] as it was because the projection onto the candidate
    is negative.  It says nothing when the reducer threw, when there was
    no candidate and when the request failed. *)
Theorem reroute_spoken_unless_reducer_threw :
  forall (w : Store) (result : RouteResult),
    soundEnabled (settings (state w)) = true ->
    spoken (effects (settle w result))
    = spoken (effects w)
      ++ match result with
         | Resolved (p :: _) =>
             let instr :=
               getCurrentInstruction (instructions p) (coordinate (state w)) in
             if JS.lt (CurrentInstruction.index instr) (Num 0)
             then [tr "reroute" []]
             else match JS.get (instructions p)
                          (CurrentInstruction.index instr) with
                  | Some _ => [tr "reroute" []]
                  | None => []
                  end
         | Resolved [] | Rejected => []
         end.
Proof.
  intros [st fl effs un] result Hon. simpl in Hon.
  destruct result as [[| p rest] |]; simpl;
    rewrite ?app_nil_r; try reflexivity.
  unfold onFulfilled, dispatch, receive, reduce, reduceRerouting.
  cbn [state].
  destruct (JS.lt _ _); simpl.
  - unfold synthesize. simpl. rewrite Hon. simpl.
    now rewrite !spoken_app, app_nil_r.
  - destruct (JS.get _ _); simpl.
    + unfold synthesize. simpl. rewrite Hon. simpl.
      now rewrite !spoken_app, app_nil_r.
    + now rewrite !app_nil_r.
Qed.

End Mute.

Lemma nothing_spoken_while_muted_witness :
  let mute := {| newFakeGPS := None; newAcceptedRisk := None;
                 newSoundEnabled := Some false |} in
  let before (d : Q) :=
    Dispatched (LocationUpdate (at_ d 0) (Num 4) (Num 180)) in
  let w := @run axisGeo (boot (guiding (leg 25)))
             [Dispatched (TurnNavigationSettingsUpdate mute)] in
  let evs := [before 30; before 18;
              Dispatched (LocationUpdate (at_ 18 100) (Num 4) (Num 180));
              RouteSettled (Resolved [leg 5])] in
  spoken (effects (@run axisGeo w evs)) = spoken (effects w)
  /\ soundEnabled (settings (state (@run axisGeo w evs))) = false.
Proof.
  cbv zeta.
  apply (@nothing_spoken_while_muted axisGeo); reflexivity.
Defined.

Lemma reroute_spoken_unless_reducer_threw_witness :
  spoken (effects (@settle axisGeo (boot (guiding (leg 25)))
                     (Resolved [bareLeg])))
  = ["reroute"]
  /\ activePath (state (@settle axisGeo (boot (guiding (leg 25)))
                          (Resolved [bareLeg])))
     = Some (leg 25).
Proof.
  split; [| reflexivity].
  exact (@reroute_spoken_unless_reducer_threw axisGeo
           (boot (guiding (leg 25))) (Resolved [bareLeg]) eq_refl).
Defined.

(** ** What the reducer throws *)

Section Errors.

Context {ext : Externals}.

Local Abbreviation State := TurnNavigationStoreState.

Lemma projectFix_throws (st : State) (initial active : Path) (c : Coordinate)
    (e : Exn) (effs : list Effect) :
  projectFix st initial active c = (Throw e, effs) -> e = TypeError.
Proof.
  unfold projectFix, bind.
  destruct (getWaypoint_cases active
              (CurrentInstruction.nextWaypointIndex
                 (getCurrentInstruction (instructions active) c)))
    as [(w & _ & ->) | [_ ->]]; [| now intros H; injection H as <- _].
  match goal with |- context [if ?b then _ else _] => destruct b end;
    [| discriminate].
  destruct (getWaypoint_cases initial
              (CurrentInstruction.nextWaypointIndex
                 (getCurrentInstruction (instructions initial) c)))
    as [(w' & _ & ->) | [_ ->]]; [discriminate |].
  now intros H; injection H as <- _.
Qed.

Lemma fix_throws (st : State) (c : Coordinate) (sp hd : num) (e : Exn)
    (effs : list Effect) :
  receive st (LocationUpdate c sp hd) = (Throw e, effs) ->
  (initialPath st = None /\ e = Error "initialPath must not be null")
  \/ (initialPath st <> None /\ activePath st = None
      /\ e = Error "activePath must not be null")
  \/ (initialPath st <> None /\ activePath st <> None
      /\ activeProfile st <> ""
      /\ (e = TypeError
          \/ e = Error "Instruction should be valid if distanceToRoute is small")).
Proof.
  unfold receive, reduce, reduceLocationUpdate.
  destruct (initialPath st) as [initial|] eqn:Hi;
    [| intros H; injection H as <- _; now left].
  destruct (activePath st) as [active|] eqn:Ha;
    [| intros H; injection H as <- _; right; left; repeat split; congruence].
  destruct (String.eqb_spec (activeProfile st) "") as [Hp | Hp];
    [discriminate |].
  intros H. right; right.
  split; [congruence |]. split; [congruence |]. split; [exact Hp |].
  destruct (projectFix st initial active c) as [[[[path instr] skip] | e0] effs0]
    eqn:Hproj.
  - destruct (projectFix_returns _ _ _ _ _ _ _ _ Hproj)
      as (_ & _ & _ & w0 & Hw0 & _).
    destruct (advanceWaypoint_defined path instr skip w0 Hw0) as [w Hw].
    unfold bind at 1 in H.
    destruct (advanceWaypoint path instr skip) as [instr' skip'].
    simpl in Hw.
    destruct (rerouteCondition st st instr' skip').
    + rewrite (rerouteBranch_result _ _ _ _ _ _ _ Hw) in H. discriminate.
    + destruct (commitBranch st st path instr' c sp hd) as [o effs1] eqn:Hcb.
      injection H as -> _.
      unfold commitBranch, throw in Hcb.
      destruct (JS.lt (CurrentInstruction.index instr') (Num 0));
        [injection Hcb as <- _; now right |].
      destruct (JS.get (instructions path) (CurrentInstruction.index instr'))
        as [next|]; [| injection Hcb as <- _; now left].
      destruct (announce_requests st st
                  (fst (fst (fst (currentDetails path c)))) instr' next)
        as [_ [u Hu]].
      unfold bind in Hcb.
      destruct (announce st st _ instr' next) as [o effs2].
      simpl in Hu. subst o. discriminate.
  - unfold bind in H. injection H as <- _. left.
    exact (projectFix_throws _ _ _ _ _ _ Hproj).
Qed.

(** X4.  The reducer throws in five situations only, and whenever it
    throws it has made no call on a collaborator.  A [SetSelectedPath]
    throws while [showUI] is true.  A [LocationUpdate] throws for a null
    [initialPath], for a null [activePath], and, past the guards, either a
    type error (a waypoint or instruction index outside its array) or the
    error for a negative instruction index.  A [TurnNavigationRerouting]
    throws a type error when the projected index is not negative but
    outside the instructions of the new path.  No other action throws. *)
Theorem reducer_throws_before_any_effect :
  forall (st : State) (a : Action) (e : Exn) (effs : list Effect),
    receive st a = (Throw e, effs) ->
    effs = []
    /\ ((exists p, a = SetSelectedPath p /\ showUI st = true
                   /\ e = Error "Changing path while turn navigation should not happen")
        \/ (exists c sp hd,
              a = LocationUpdate c sp hd
              /\ ((initialPath st = None
                   /\ e = Error "initialPath must not be null")
                  \/ (initialPath st <> None /\ activePath st = None
                      /\ e = Error "activePath must not be null")
                  \/ (initialPath st <> None /\ activePath st <> None
                      /\ activeProfile st <> ""
                      /\ (e = TypeError
                          \/ e = Error "Instruction should be valid if distanceToRoute is small"))))
        \/ (exists p,
              a = TurnNavigationRerouting p
              /\ e = TypeError
              /\ JS.lt (CurrentInstruction.index
                          (getCurrentInstruction (instructions p)
                             (coordinate st))) (Num 0) = false
              /\ JS.get (instructions p)
                   (CurrentInstruction.index
                      (getCurrentInstruction (instructions p) (coordinate st)))
                 = None)).
Proof.
  intros st a e effs Hr. destruct a; try discriminate.
  - unfold receive, reduce in Hr.
    destruct (fakeGPS (settings st)); discriminate.
  - unfold receive, reduce in Hr. destruct (started st); discriminate.
  - unfold receive, reduce in Hr.
    destruct (showUI st) eqn:Hui; [| discriminate].
    injection Hr as <- <-. split; [reflexivity |]. left. now exists path.
  - split.
    + pose proof (fix_outcome st position newSpeed newHeading) as Hout.
      rewrite Hr in Hout. now inversion Hout.
    + right; left. exists position, newSpeed, newHeading.
      split; [reflexivity |]. exact (fix_throws _ _ _ _ _ _ Hr).
  - unfold receive, reduce, reduceRerouting in Hr.
    destruct (JS.lt _ _) eqn:Hlt; [discriminate |].
    destruct (JS.get _ _) eqn:Hget; [discriminate |].
    injection Hr as <- <-. split; [reflexivity |]. right; right.
    now exists path.
Qed.

End Errors.

Lemma reducer_throws_before_any_effect_witness :
  @receive axisGeo (guiding (leg 25)) (SetSelectedPath trip)
  = (Throw (Error "Changing path while turn navigation should not happen"), [])
  /\ exists p, SetSelectedPath trip = SetSelectedPath p
               /\ showUI (guiding (leg 25)) = true.
Proof.
  split; [reflexivity |].
  destruct (@reducer_throws_before_any_effect axisGeo (guiding (leg 25))
              (SetSelectedPath trip) _ _ eq_refl)
    as (_ & [(p & Ha & Hui & _) | [(c & sp & hd & Ha & _) | (p & Ha & _)]]).
  - exists p. split; [exact Ha | exact Hui].
  - discriminate Ha.
  - discriminate Ha.
Defined.

(** ** Invariants along the events of the queue *)

Section Invariants.

Context {ext : Externals}.

Local Abbreviation State := TurnNavigationStoreState.

Variable allowed : Action -> Prop.
Variable P : State -> Prop.

Hypothesis allowed_rerouting : forall p, allowed (TurnNavigationRerouting p).
Hypothesis allowed_failed : allowed TurnNavigationReroutingFailed.
Hypothesis P_receive :
  forall (st : State) (a : Action) (st' : State) (effs : list Effect),
    allowed a -> P st -> receive st a = (Return st', effs) -> P st'.

Lemma dispatch_preserves (w : Store) (a : Action) :
  allowed a -> P (state w) -> P (state (fst (dispatch w a))).
Proof.
  intros Ha Hw. unfold dispatch.
  destruct (receive (state w) a) as [[st'|e] effs] eqn:Hr; simpl.
  - exact (P_receive _ _ _ _ Ha Hw Hr).
  - exact Hw.
Qed.

Lemma settle_preserves (w : Store) (result : RouteResult) :
  P (state w) -> P (state (settle w result)).
Proof.
  intros Hw.
  assert (Hfail : forall w0 : Store,
            P (state w0) -> P (state (recordUncaught (onRejected w0)))).
  { intros w0 H0. rewrite recordUncaught_state.
    now apply dispatch_preserves. }
  destruct result as [[| p rest] |]; unfold settle, onFulfilled.
  - pose proof (dispatch_preserves w TurnNavigationReroutingFailed
                  allowed_failed Hw) as H.
    destruct (dispatch w TurnNavigationReroutingFailed) as [w' [e|]];
      cbn [fst] in H; auto.
  - pose proof (dispatch_preserves w (TurnNavigationRerouting p)
                  (allowed_rerouting p) Hw) as H.
    destruct (dispatch w (TurnNavigationRerouting p)) as [w' [e|]];
      cbn [fst] in H; auto.
  - now apply Hfail.
Qed.

Lemma step_preserves (w : Store) (ev : Event) :
  (forall a, ev = Dispatched a -> allowed a) ->
  P (state w) -> P (state (step w ev)).
Proof.
  intros Hev Hw. destruct ev as [a | result]; simpl.
  - rewrite recordUncaught_state. apply dispatch_preserves; auto.
  - destruct (inFlight w); [exact Hw |]. now apply settle_preserves.
Qed.

Lemma run_preserves (evs : list Event) :
  forall w : Store,
    (forall a, In (Dispatched a) evs -> allowed a) ->
    P (state w) -> P (state (run w evs)).
Proof.
  induction evs as [| ev rest IH]; intros w Hall Hw; [exact Hw |].
  simpl. apply IH.
  - intros a Ha. apply Hall. now right.
  - apply step_preserves; [| exact Hw].
    intros a ->. apply Hall. now left.
Qed.

End Invariants.

Section Reachable.

Context {ext : Externals}.

Local Abbreviation State := TurnNavigationStoreState.

Lemma GuidanceFilled_receive (st : State) (a : Action) (st' : State)
    (effs : list Effect) :
  True -> GuidanceFilled st -> receive st a = (Return st', effs) ->
  GuidanceFilled st'.
Proof.
  intros _ HG Hr. unfold GuidanceFilled in *.
  destruct a.
  - injection Hr as <- _. discriminate.
  - injection Hr as <- _. exact HG.
  - unfold receive, reduce in Hr.
    destruct (fakeGPS (settings st)); injection Hr as <- _; exact HG.
  - unfold receive, reduce in Hr.
    destruct (started st); injection Hr as <- _; exact HG.
  - injection Hr as <- _. exact HG.
  - injection Hr as <- _. exact HG.
  - injection Hr as <- _. exact HG.
  - unfold receive, reduce in Hr.
    destruct (showUI st) eqn:Hui; [discriminate |].
    injection Hr as <- _. simpl. congruence.
  - pose proof (fix_outcome st position newSpeed newHeading) as Hout.
    rewrite Hr in Hout.
    inversion Hout as [e | Hp | path instr w Hp Hpath Hw Heq
                       | path instr next Hp Hpath Hi Ha Hlt Hget Heq];
      subst; try exact HG.
    intros _. simpl. repeat split; auto.
    + exact (valid_index_nonnegative _ _ _ Hget).
    + discriminate.
  - unfold receive, reduce, reduceRerouting in Hr.
    destruct (JS.lt _ _); [injection Hr as <- _; exact HG |].
    destruct (JS.get _ _) eqn:Hget; [| discriminate].
    injection Hr as <- _. simpl. intros Hui.
    destruct (HG Hui) as (Hi & _ & _ & _).
    repeat split; auto; try discriminate.
    exact (valid_index_nonnegative _ _ _ Hget).
  - injection Hr as <- _. exact HG.
Qed.

(** X5.  In every state the store reaches from the one its constructor
    builds, whatever is dispatched and however routing requests settle,
    a true [showUI] comes with both paths set and a filled instruction
    snapshot: an index that is a number and not negative, and a text.
    The display is never on over an empty snapshot. *)
Theorem guidance_never_shows_empty_snapshot :
  forall (fake : bool) (tiles : string) (evs : list Event),
    let st := state (run (boot (initialState fake tiles)) evs) in
    showUI st = true ->
    initialPath st <> None /\ activePath st <> None
    /\ JSProp.Le (Num 0) (index (instruction st))
    /\ text (instruction st) <> None.
Proof.
  intros fake tiles evs.
  apply (run_preserves (fun _ => True) GuidanceFilled
           (fun _ => I) I GuidanceFilled_receive evs
           (boot (initialState fake tiles))).
  - intros; exact I.
  - intros H. discriminate H.
Qed.

Lemma PathsTogether_receive (st : State) (a : Action) (st' : State)
    (effs : list Effect) :
  True -> PathsTogether st -> receive st a = (Return st', effs) ->
  PathsTogether st'.
Proof.
  intros _ HP Hr. unfold PathsTogether in *.
  destruct (receive_frame _ _ _ _ Hr) as (_ & _ & Hinit & Hact & _).
  destruct a;
    try (rewrite Hinit, Hact by discriminate; exact HP).
  - unfold receive, reduce in Hr.
    destruct (showUI st); [discriminate |].
    injection Hr as <- _. simpl. discriminate.
  - unfold receive, reduce, reduceRerouting in Hr.
    destruct (JS.lt _ _); [injection Hr as <- _; exact HP |].
    destruct (JS.get _ _); [| discriminate].
    injection Hr as <- _. simpl. discriminate.
Qed.

Lemma dispatch_uncaught (w : Store) (a : Action) :
  uncaught (fst (dispatch w a)) = uncaught w.
Proof.
  unfold dispatch. now destruct (receive (state w) a) as [[st'|e] effs].
Qed.

Lemma onRejected_returns (w : Store) : snd (onRejected w) = None.
Proof. reflexivity. Qed.

Lemma settle_uncaught (w : Store) (result : RouteResult) :
  uncaught (settle w result) = uncaught w.
Proof.
  assert (Hfail : forall w0 : Store,
            uncaught (recordUncaught (onRejected w0)) = uncaught w0).
  { intros w0. reflexivity. }
  destruct result as [[| p rest] |]; unfold settle, onFulfilled.
  - reflexivity.
  - pose proof (dispatch_uncaught w (TurnNavigationRerouting p)) as H.
    destruct (dispatch w (TurnNavigationRerouting p)) as [w' [e|]];
      cbn [fst] in H.
    + now rewrite Hfail.
    + exact H.
  - apply Hfail.
Qed.

(** X7.  In every run from the constructor's state, [activePath] is set
    whenever [initialPath] is, so the error [activePath must not be null]
    is never raised: the second null guard of the [LocationUpdate] branch
    cannot fire. *)
Theorem activePath_error_unreachable :
  forall (fake : bool) (tiles : string) (evs : list Event),
    let w := run (boot (initialState fake tiles)) evs in
    (initialPath (state w) <> None -> activePath (state w) <> None)
    /\ ~ In (Error "activePath must not be null") (uncaught w).
Proof.
  intros fake tiles evs.
  assert (Hinv : forall (l : list Event) (w0 : Store),
            PathsTogether (state w0) ->
            ~ In (Error "activePath must not be null") (uncaught w0) ->
            PathsTogether (state (run w0 l))
            /\ ~ In (Error "activePath must not be null") (uncaught (run w0 l))).
  { induction l as [| ev rest IH]; intros w0 HP Hun; [auto |].
    simpl. apply IH.
    - apply (step_preserves (fun _ => True) PathsTogether
               (fun _ => I) I PathsTogether_receive); auto.
    - destruct ev as [a | result]; simpl.
      + unfold dispatch.
        destruct (receive (state w0) a) as [[st'|e] effs] eqn:Hr; simpl;
          [exact Hun |].
        rewrite in_app_iff. intros [Hin | [He | []]]; [now apply Hun |].
        subst e.
        destruct a; try discriminate.
        * unfold receive, reduce in Hr.
          destruct (fakeGPS (settings (state w0))); discriminate.
        * unfold receive, reduce in Hr.
          destruct (started (state w0)); discriminate.
        * unfold receive, reduce in Hr.
          destruct (showUI (state w0)); discriminate.
        * destruct (fix_throws _ _ _ _ _ _ Hr)
            as [[_ He] | [(Hi & Ha & _) | (_ & _ & _ & [He | He])]];
            try discriminate.
          now apply (HP Hi).
        * unfold receive, reduce, reduceRerouting in Hr.
          destruct (JS.lt _ _); [discriminate |].
          destruct (JS.get _ _); discriminate.
      + destruct (inFlight w0); [exact Hun |].
        now rewrite settle_uncaught. }
  apply Hinv.
  - intros H. now contradiction H.
  - intros [].
Qed.

End Reachable.

Lemma guidance_never_shows_empty_snapshot_witness :
  let st := state (@run axisGeo (boot (initialState false "OpenStreetMap"))
                     [Dispatched (SetVehicleProfile "car");
                      Dispatched (SetSelectedPath (leg 25));
                      Dispatched (TurnNavigationStart true);
                      Dispatched (LocationUpdate (at_ 400 0) (Num 4) (Num 180))])
  in
  showUI st = true
  /\ initialPath st <> None /\ activePath st <> None
  /\ JSProp.Le (Num 0) (index (instruction st))
  /\ text (instruction st) <> None.
Proof.
  cbv zeta. split; [reflexivity |].
  apply (@guidance_never_shows_empty_snapshot axisGeo). reflexivity.
Defined.

Section FlagAndTiles.

Context {ext : Externals}.

Local Abbreviation State := TurnNavigationStoreState.

Lemma receive_sets_flag (st : State) (a : Action) (st' : State)
    (effs : list Effect) :
  receive st a = (Return st', effs) ->
  rerouteInProgress st' = true ->
  rerouteInProgress st = true \/ requests effs <> [].
Proof.
  intros Hr Hflag. destruct a.
  - injection Hr as <- _. now left.
  - injection Hr as <- _. now left.
  - unfold receive, reduce in Hr.
    destruct (fakeGPS (settings st)); injection Hr as <- _; now left.
  - unfold receive, reduce in Hr.
    destruct (started st); injection Hr as <- _; now left.
  - injection Hr as <- _. discriminate.
  - injection Hr as <- _. now left.
  - injection Hr as <- _. now left.
  - unfold receive, reduce in Hr.
    destruct (showUI st); [discriminate |]. injection Hr as <- _. now left.
  - pose proof (fix_outcome st position newSpeed newHeading) as Hout.
    rewrite Hr in Hout.
    inversion Hout as [e | Hp | path instr w Hp Hpath Hw Heq
                       | path instr next Hp Hpath Hi Ha Hlt Hget Heq];
      subst; try (now left).
    simpl in Hflag. destruct (rerouteInProgress st); [discriminate |].
    right. discriminate.
  - unfold receive, reduce, reduceRerouting in Hr.
    destruct (JS.lt _ _); [injection Hr as <- _; discriminate |].
    destruct (JS.get _ _); [| discriminate].
    injection Hr as <- _. discriminate.
  - injection Hr as <- _. now left.
Qed.

Lemma settle_flag (w : Store) (result : RouteResult) :
  rerouteInProgress (state (settle w result)) = false.
Proof.
  destruct result as [[| p rest] |]; simpl; try reflexivity.
  unfold onFulfilled, dispatch, receive, reduce, reduceRerouting.
  destruct (JS.lt _ _); simpl; [reflexivity |].
  destruct (JS.get _ _); reflexivity.
Qed.

Lemma FlagBacked_step (w : Store) (ev : Event) :
  FlagBacked w -> FlagBacked (step w ev).
Proof.
  unfold FlagBacked. intros Hw. destruct ev as [a | result]; simpl.
  - unfold dispatch.
    destruct (receive (state w) a) as [[st'|e] effs] eqn:Hr; simpl.
    + intros Hflag Hnil. apply app_eq_nil in Hnil as [Hin Hreq].
      destruct (receive_sets_flag _ _ _ _ Hr Hflag) as [Hold | Hnew].
      * now apply (Hw Hold).
      * now apply Hnew.
    + intros Hflag Hnil. apply app_eq_nil in Hnil as [Hin _].
      now apply (Hw Hflag).
  - destruct (inFlight w) as [| r rest] eqn:Hin.
    + intros Hf. rewrite Hin. exact (Hw Hf).
    + rewrite settle_flag. discriminate.
Qed.

(** X8.  The flag is never set without a request behind it: in every
    run from the constructor's state, [rerouteInProgress] is true only
    while at least one routing request has not settled yet. *)
Theorem flag_only_while_a_request_is_in_flight :
  forall (fake : bool) (tiles : string) (evs : list Event),
    let w := run (boot (initialState fake tiles)) evs in
    rerouteInProgress (state w) = true -> inFlight w <> [].
Proof.
  intros fake tiles evs.
  assert (Hinv : forall (l : list Event) (w0 : Store),
            FlagBacked w0 -> FlagBacked (run w0 l)).
  { induction l as [| ev rest IH]; intros w0 H0; [exact H0 |].
    simpl. apply IH. now apply FlagBacked_step. }
  apply Hinv. intros H. discriminate H.
Qed.

Lemma started_tiles_receive (tiles : string) (st : State) (a : Action)
    (st' : State) (effs : list Effect) :
  a <> TurnNavigationStop ->
  started st = true /\ oldTiles st = tiles ->
  receive st a = (Return st', effs) ->
  started st' = true /\ oldTiles st' = tiles.
Proof.
  intros Hns [Hs Ht] Hr.
  destruct (receive_frame _ _ _ _ Hr) as (_ & Htiles & _ & _ & _ & _ & Hst).
  destruct a;
    try (rewrite Htiles, Hst by (discriminate || assumption); now split).
  - unfold receive, reduce in Hr.
    destruct (fakeGPS (settings st)); injection Hr as <- _; now split.
  - unfold receive, reduce in Hr. rewrite Hs in Hr.
    injection Hr as <- _. now split.
Qed.

(** X9.  While navigation is started the remembered map layer is
    protected: along any events without a [TurnNavigationStop], a started
    store stays started and keeps its [oldTiles], whatever layers are
    selected meanwhile. *)
Theorem oldTiles_kept_while_started :
  forall (w : Store) (evs : list Event),
    started (state w) = true ->
    forallb (fun ev => negb (isStop ev)) evs = true ->
    started (state (run w evs)) = true
    /\ oldTiles (state (run w evs)) = oldTiles (state w).
Proof.
  intros w evs Hs Hall.
  apply (run_preserves (fun a => a <> TurnNavigationStop)
           (fun st => started st = true /\ oldTiles st = oldTiles (state w))
           ltac:(intros; discriminate) ltac:(discriminate)
           (started_tiles_receive (oldTiles (state w))) evs w).
  - intros a Hin ->.
    rewrite forallb_forall in Hall. specialize (Hall _ Hin). discriminate.
  - now split.
Qed.

End FlagAndTiles.

Lemma flag_only_while_a_request_is_in_flight_witness :
  let w := @run axisGeo (boot (initialState false "OpenStreetMap"))
             [Dispatched (SetVehicleProfile "car");
              Dispatched (SetSelectedPath (leg 25));
              Dispatched (LocationUpdate (at_ 400 0) (Num 4) (Num 180));
              Dispatched (LocationUpdate (at_ 400 100) (Num 4) (Num 180))] in
  rerouteInProgress (state w) = true /\ inFlight w <> [].
Proof.
  cbv zeta. split; [reflexivity |].
  apply (@flag_only_while_a_request_is_in_flight axisGeo). reflexivity.
Defined.

Lemma oldTiles_kept_while_started_witness :
  let evs := [Dispatched (SelectMapLayer "Satellite");
              Dispatched (LocationUpdate (at_ 400 0) (Num 4) (Num 180));
              Dispatched (SelectMapLayer "Terrain")] in
  started (state (@run axisGeo (boot (guiding (leg 25))) evs)) = true
  /\ oldTiles (state (@run axisGeo (boot (guiding (leg 25))) evs))
     = "OpenStreetMap".
Proof.
  cbv zeta.
  apply (@oldTiles_kept_while_started axisGeo (boot (guiding (leg 25))));
    reflexivity.
Defined.

Section Composition.

Context {ext : Externals}.

Local Abbreviation State := TurnNavigationStoreState.

(** X10.  The end-navigation button dispatches [SelectMapLayer] with the
    remembered tiles, then [TurnNavigationStop], then an action for the
    map.  On this store the three together act like a single stop,
    whether navigation was started or not, and a second stop changes
    nothing more: the paths, the profile and the remembered tiles
    survive. *)
Theorem end_navigation_is_one_stop :
  forall w : Store,
    let clicked :=
      run w [Dispatched (SelectMapLayer (oldTiles (state w)));
             Dispatched TurnNavigationStop;
             Dispatched OtherAction] in
    state clicked = state (run w [Dispatched TurnNavigationStop])
    /\ state (run clicked [Dispatched TurnNavigationStop]) = state clicked
    /\ oldTiles (state clicked) = oldTiles (state w)
    /\ initialPath (state clicked) = initialPath (state w)
    /\ activePath (state clicked) = activePath (state w)
    /\ activeProfile (state clicked) = activeProfile (state w)
    /\ spoken (effects clicked) = spoken (effects w)
    /\ inFlight clicked = inFlight w.
Proof.
  intros [st fl effs un]. destruct st. simpl.
  unfold dispatch, receive, reduce. simpl.
  destruct started0; simpl; rewrite ?app_nil_r, ?spoken_app; simpl;
    rewrite ?app_nil_r; repeat split.
Qed.

Lemma projectFix_rerouteCleared (st : State) (initial active : Path)
    (c : Coordinate) :
  projectFix (rerouteCleared st) initial active c
  = projectFix st initial active c.
Proof. reflexivity. Qed.

(** X11.  A failed reroute is retried: after a
    [TurnNavigationReroutingFailed], a fix that asks for a reroute issues
    a routing request and sets the flag again, whether or not the flag was
    set before the failure. *)
Theorem reroute_retried_after_failure :
  forall (st : State) (c : Coordinate) (sp hd : num) (path : Path)
         (instr : CurrentInstruction.t) (skip : bool),
    Projects st c path instr skip ->
    rerouteCondition st st (fst (advanceWaypoint path instr skip))
      (snd (advanceWaypoint path instr skip)) = true ->
    exists (failed st' : State) (args : RoutingArgs.t),
      receive st TurnNavigationReroutingFailed = (Return failed, [])
      /\ rerouteInProgress failed = false
      /\ receive failed (LocationUpdate c sp hd)
         = (Return st', [RouteRequest args])
      /\ rerouteInProgress st' = true.
Proof.
  intros st c sp hd path instr skip Hp Hcond.
  assert (Hp' : Projects (rerouteCleared st) c path instr skip).
  { destruct Hp as (initial & active & Hi & Ha & Hprof & Hproj).
    exists initial, active. repeat split; auto. }
  destruct (Projects_waypoint _ _ _ _ _ Hp) as [w0 Hw0].
  destruct (advanceWaypoint_defined path instr skip w0 Hw0) as [w Hw].
  exists (rerouteCleared st). do 2 eexists.
  split; [reflexivity |]. split; [reflexivity |].
  rewrite (reduceLocationUpdate_projected _ _ sp hd _ _ _ Hp').
  change (rerouteCondition (rerouteCleared st) (rerouteCleared st))
    with (rerouteCondition st st).
  rewrite Hcond, (rerouteBranch_result _ _ _ _ _ _ _ Hw).
  split; reflexivity.
Qed.

End Composition.

Lemma reroute_retried_after_failure_witness :
  exists (failed st' : TurnNavigationStoreState) (args : RoutingArgs.t),
    @receive axisGeo (rerouted (guiding (leg 25)) true (at_ 500 100)
                        (Num 4) (Num 180))
      TurnNavigationReroutingFailed = (Return failed, [])
    /\ rerouteInProgress failed = false
    /\ @receive axisGeo failed
         (LocationUpdate (at_ 500 100) (Num 4) (Num 180))
       = (Return st', [RouteRequest args])
    /\ rerouteInProgress st' = true.
Proof.
  apply (@reroute_retried_after_failure axisGeo
           (rerouted (guiding (leg 25)) true (at_ 500 100) (Num 4) (Num 180))
           (at_ 500 100) (Num 4) (Num 180) (leg 25)
           (axisProjection [turnRight] (at_ 500 100)) false).
  - exists (leg 25), (leg 25). repeat split. discriminate.
  - reflexivity.
Defined.

(** ** The announcement distances *)

Lemma lastAnnounceDistance_floor (v : Q) :
  lastAnnounceDistance (Num v)
  = Num (10 + 2 * inject_Z (Qfloor (v / 5 + (1 # 2))) * 5).
Proof. reflexivity. Qed.

Lemma round_fifth_bounds (v : Q) :
  (inject_Z (Qfloor (v / 5 + (1 # 2))) <= v * (1 # 5) + (1 # 2))%Q
  /\ (v * (1 # 5) + (1 # 2) < inject_Z (Qfloor (v / 5 + (1 # 2))) + 1)%Q.
Proof.
  pose proof (Qfloor_le (v / 5 + (1 # 2))) as Hlo.
  pose proof (Qlt_floor (v / 5 + (1 # 2))) as Hhi.
  rewrite inject_Z_plus in Hhi.
  unfold Qdiv in Hlo, Hhi at 1. change (/ 5)%Q with (1 # 5)%Q in Hlo, Hhi.
  change (inject_Z 1) with 1%Q in Hhi.
  split; assumption.
Qed.

(** X12.  For a speed that is not negative, the threshold of the near
    announcement is 10 plus a multiple of 10, at least 10, and lies
    within 5 of [10 + 2 * speed]: more than [2 * speed + 5] and at most
    [2 * speed + 15].  It never decreases when the speed grows. *)
Theorem lastAnnounceDistance_tracks_speed :
  forall v : Q,
    (0 <= v)%Q ->
    (exists (k : Z) (t : Q),
       lastAnnounceDistance (Num v) = Num t
       /\ (0 <= k)%Z
       /\ (t == inject_Z (10 + 10 * k))%Q
       /\ (10 <= t)%Q
       /\ (2 * v + 5 < t)%Q
       /\ (t <= 2 * v + 15)%Q)
    /\ (forall v' : Q,
          (v <= v')%Q ->
          JSProp.Le (lastAnnounceDistance (Num v))
                    (lastAnnounceDistance (Num v'))).
Proof.
  intros v Hv. split.
  - exists (Qfloor (v / 5 + (1 # 2))). eexists.
    split; [apply lastAnnounceDistance_floor |].
    destruct (round_fifth_bounds v) as [Hlo Hhi].
    assert (Hk : (0 <= Qfloor (v / 5 + (1 # 2)))%Z).
    { change 0%Z with (Qfloor 0).
      apply Qfloor_resp_le. unfold Qdiv. change (/ 5)%Q with (1 # 5)%Q. lra. }
    assert (Hk' : (0 <= inject_Z (Qfloor (v / 5 + (1 # 2))))%Q).
    { change 0%Q with (inject_Z 0). now rewrite <- Zle_Qle. }
    split; [exact Hk |]. split.
    + rewrite inject_Z_plus, inject_Z_mult.
      change (inject_Z 10) with 10%Q. ring.
    + repeat split; lra.
  - intros v' Hle. rewrite !lastAnnounceDistance_floor. unfold JSProp.Le.
    assert (Hmono : (Qfloor (v / 5 + (1 # 2))
                     <= Qfloor (v' / 5 + (1 # 2)))%Z).
    { apply Qfloor_resp_le. unfold Qdiv. change (/ 5)%Q with (1 # 5)%Q. lra. }
    rewrite Zle_Qle in Hmono. lra.
Qed.

Lemma lastAnnounceDistance_tracks_speed_witness :
  exists (k : Z) (t : Q),
    lastAnnounceDistance (Num 12) = Num t
    /\ (0 <= k)%Z
    /\ (t == inject_Z (10 + 10 * k))%Q
    /\ (10 <= t)%Q
    /\ (2 * 12 + 5 < t)%Q
    /\ (t <= 2 * 12 + 15)%Q.
Proof.
  apply (lastAnnounceDistance_tracks_speed 12). discriminate.
Defined.

Section FarAnnouncement.

Context {ext : Externals}.

(** X13.  The far announcement fires only above a speed of 15 and only
    between 90 and 1150 units before the turn.  Beyond 800 it speaks the
    kilometre phrase; otherwise it speaks the distance rounded to a
    hundred, which is one of 100, 200, ..., 800: never 0. *)
Theorem far_announcement_speaks_100_to_800 :
  forall (avg : num) (prev : TNInstructionState)
         (instr : CurrentInstruction.t),
    farAnnouncement avg prev instr = true ->
    exists v d : Q,
      avg = Num v
      /\ CurrentInstruction.distanceToTurn instr = Num d
      /\ (15 < v)%Q /\ (90 < d)%Q /\ (d <= 1150)%Q
      /\ ((800 < d)%Q /\ inString instr = tr "in_km_singular" []
          \/ (d <= 800)%Q
             /\ exists k : Z,
                  (1 <= k <= 8)%Z
                  /\ inString instr = tr "in_m" [JS.intToString (k * 100)]).
Proof.
  intros avg prev instr Hfar. unfold farAnnouncement in Hfar.
  apply andb_true_iff in Hfar as [Hfar _].
  apply andb_true_iff in Hfar as [Hfar Hle].
  apply andb_true_iff in Hfar as [Hv Hgt].
  apply gt_iff in Hv. unfold JSProp.Gt in Hv.
  destruct avg as [| |v]; try contradiction. simpl in Hv.
  rewrite lastAnnounceDistance_floor in Hgt.
  apply gt_iff in Hgt. unfold JSProp.Gt in Hgt.
  apply le_iff in Hle. unfold firstAnnounceDistance in Hle.
  unfold inString.
  destruct (CurrentInstruction.distanceToTurn instr) as [| |d];
    try contradiction.
  unfold JSProp.Lt, JS.add, JS.lift2 in Hgt. unfold JSProp.Le in Hle.
  destruct (round_fifth_bounds v) as [_ Hhi].
  assert (Hd : (90 < d)%Q).
  { assert (Hk : (3 <= Qfloor (v / 5 + (1 # 2)))%Z).
    { change 3%Z with (Qfloor 3).
      apply Qfloor_resp_le. unfold Qdiv. change (/ 5)%Q with (1 # 5)%Q. lra. }
    rewrite Zle_Qle in Hk. change (inject_Z 3) with 3%Q in Hk. lra. }
  exists v, d. repeat split; auto.
  destruct (JS.gt (Num d) (Num 800)) eqn:H800.
  - left. apply gt_iff in H800. split; [exact H800 | reflexivity].
  - right. apply gt_false_iff in H800. unfold JSProp.Gt, JSProp.Lt in H800.
    apply Qnot_lt_le in H800. split; [exact H800 |].
    simpl JS.roundZ. exists (Qfloor (d / 100 + (1 # 2))).
    split; [| reflexivity]. split.
    + apply Z.le_trans with (Qfloor 1); [reflexivity |].
      apply Qfloor_resp_le.
      unfold Qdiv. change (/ 100)%Q with (1 # 100)%Q. lra.
    + change 8%Z with (Qfloor (17 # 2)). apply Qfloor_resp_le.
      unfold Qdiv. change (/ 100)%Q with (1 # 100)%Q. lra.
Qed.

End FarAnnouncement.

Lemma far_announcement_speaks_100_to_800_witness :
  exists v d : Q,
    Num 25 = Num v
    /\ CurrentInstruction.distanceToTurn
         (axisProjection [turnRight] (at_ 500 0)) = Num d
    /\ (15 < v)%Q /\ (90 < d)%Q /\ (d <= 1150)%Q
    /\ ((800 < d)%Q
        /\ @inString axisGeo (axisProjection [turnRight] (at_ 500 0))
           = @tr axisGeo "in_km_singular" []
        \/ (d <= 800)%Q
           /\ exists k : Z,
                (1 <= k <= 8)%Z
                /\ @inString axisGeo (axisProjection [turnRight] (at_ 500 0))
                   = @tr axisGeo "in_m" [JS.intToString (k * 100)]).
Proof.
  apply (@far_announcement_speaks_100_to_800 axisGeo (Num 25)
           emptyInstruction (axisProjection [turnRight] (at_ 500 0))).
  reflexivity.
Defined.

(** * Marker colours *)

Lemma hexDigit_bound (c : ascii) (d : N) :
  hexDigit c = Some d -> (d < 16)%N.
Proof.
  unfold hexDigit.
  destruct ((48 <=? N_of_ascii c) && (N_of_ascii c <=? 57))%N eqn:H1.
  - apply andb_true_iff in H1 as [Ha Hb].
    apply N.leb_le in Ha, Hb. intros H. injection H as <-. lia.
  - destruct ((97 <=? N_of_ascii c) && (N_of_ascii c <=? 102))%N eqn:H2.
    + apply andb_true_iff in H2 as [Ha Hb].
      apply N.leb_le in Ha, Hb. intros H. injection H as <-. lia.
    + destruct ((65 <=? N_of_ascii c) && (N_of_ascii c <=? 70))%N eqn:H3;
        [| discriminate].
      apply andb_true_iff in H3 as [Ha Hb].
      apply N.leb_le in Ha, Hb. intros H. injection H as <-. lia.
Qed.

Lemma hexPair_bound (hi lo : ascii) (n : N) :
  hexPair hi lo = Some n -> (n < 256)%N.
Proof.
  unfold hexPair.
  destruct (hexDigit hi) as [h|] eqn:Hh; [| discriminate].
  destruct (hexDigit lo) as [l|] eqn:Hl; [| discriminate].
  apply hexDigit_bound in Hh, Hl. intros H.
  assert (Hn : n = (16 * h + l)%N) by congruence.
  clear H. subst n. lia.
Qed.

Lemma hexGroups_shape (hex : string) (r g b : N) :
  hexGroups hex = Some (r, g, b) ->
  (r < 256)%N /\ (g < 256)%N /\ (b < 256)%N
  /\ (String.length hex = 6%nat
      \/ exists body, hex = String "#" body /\ String.length body = 6%nat).
Proof.
  unfold hexGroups. intros H.
  set (body := match hex with String "#" rest => rest | _ => hex end) in H.
  assert (Hbody : body = hex \/ hex = String "#" body).
  { subst body. destruct hex as [| c rest]; [now left |].
    destruct c as [[] [] [] [] [] [] [] []]; auto. }
  destruct body as [| r1 [| r2 [| g1 [| g2 [| b1 [| b2 [| x rest]]]]]]];
    try discriminate.
  destruct (hexPair r1 r2) as [r'|] eqn:Hr; [| discriminate].
  destruct (hexPair g1 g2) as [g'|] eqn:Hg; [| discriminate].
  destruct (hexPair b1 b2) as [b'|] eqn:Hb; [| discriminate].
  injection H as <- <- <-.
  apply hexPair_bound in Hr, Hg, Hb. repeat split; try assumption.
  destruct Hbody as [<- | ->]; [now left |].
  right. eexists. split; reflexivity.
Qed.

(** X14.  [hexToRgb] either returns [rgb(r, g, b)] with three decimal
    components between 0 and 255, or throws [invalid hex color: ] followed
    by its argument.  It returns only for six characters, or seven of
    which the first is [#]: the short form [#fff] and every other length
    are refused. *)
Theorem hexToRgb_returns_bytes_or_throws :
  forall hex : string,
    (hexToRgb hex = Throw (Error ("invalid hex color: " ++ hex))
     \/ exists r g b : N,
          hexToRgb hex = Return (rgb r g b)
          /\ (r < 256)%N /\ (g < 256)%N /\ (b < 256)%N
          /\ (String.length hex = 6%nat
              \/ exists body,
                   hex = String "#" body /\ String.length body = 6%nat))
    /\ (String.length hex <> 6%nat -> String.length hex <> 7%nat ->
        hexToRgb hex = Throw (Error ("invalid hex color: " ++ hex))).
Proof.
  intros hex. unfold hexToRgb.
  destruct (hexGroups hex) as [[[r g] b]|] eqn:Hg.
  - destruct (hexGroups_shape _ _ _ _ Hg) as (Hr & Hgr & Hb & Hlen).
    split.
    + right. exists r, g, b. auto.
    + intros H6 H7. exfalso. destruct Hlen as [H | (body & -> & H)].
      * now apply H6.
      * apply H7. simpl. now rewrite H.
  - split; [now left | reflexivity].
Qed.

Lemma hexDigit_hexChar (upper : bool) (n : N) :
  (n < 16)%N -> hexDigit (hexChar upper n) = Some n.
Proof.
  intros Hn.
  assert (Hall : forallb (fun k : nat =>
                   match hexDigit (hexChar upper (N.of_nat k)) with
                   | Some m => (m =? N.of_nat k)%N
                   | None => false
                   end) (seq 0 16) = true)
    by (destruct upper; vm_compute; reflexivity).
  rewrite forallb_forall in Hall.
  specialize (Hall (N.to_nat n)). rewrite N2Nat.id in Hall.
  destruct (hexDigit (hexChar upper n)) as [m|].
  - f_equal. apply N.eqb_eq, Hall, in_seq. lia.
  - discriminate Hall. apply in_seq. lia.
Qed.

Lemma hexPair_hexChar (upper : bool) (n : N) :
  (n < 256)%N ->
  hexPair (hexChar upper (n / 16)) (hexChar upper (n mod 16)) = Some n.
Proof.
  intros Hn. unfold hexPair.
  rewrite !hexDigit_hexChar.
  - f_equal. rewrite (N.div_mod n 16) at 3 by discriminate. reflexivity.
  - apply N.mod_lt. discriminate.
  - apply N.Div0.div_lt_upper_bound. lia.
Qed.

(** X15.  Round trip: the six-digit notation of any three components
    below 256, in lower or in upper case, with or without the leading
    [#], is read back as exactly these components. *)
Theorem hexToRgb_reads_back_hex_notation :
  forall (upper : bool) (r g b : N),
    (r < 256)%N -> (g < 256)%N -> (b < 256)%N ->
    hexToRgb (hexColour upper r g b) = Return (rgb r g b)
    /\ hexToRgb (String "#" (hexColour upper r g b)) = Return (rgb r g b).
Proof.
  intros upper r g b Hr Hg Hb.
  assert (Hgroups : forall s,
            s = hexColour upper r g b ->
            match s with
            | String r1 (String r2 (String g1 (String g2
                (String b1 (String b2 ""))))) =>
                match hexPair r1 r2, hexPair g1 g2, hexPair b1 b2 with
                | Some r, Some g, Some b => Some (r, g, b)
                | _, _, _ => None
                end
            | _ => None
            end = Some (r, g, b)).
  { intros s ->. unfold hexColour. now rewrite !hexPair_hexChar. }
  split.
  - unfold hexToRgb, hexGroups.
    assert (Hno : match hexColour upper r g b with
                  | String "#" rest => rest
                  | _ => hexColour upper r g b
                  end = hexColour upper r g b).
    { unfold hexColour.
      destruct (hexChar upper (r / 16)) as [[] [] [] [] [] [] [] []] eqn:Hc;
        try reflexivity.
      exfalso.
      assert (Hd : hexDigit (hexChar upper (r / 16)) = Some (r / 16)%N).
      { apply hexDigit_hexChar. apply N.Div0.div_lt_upper_bound. lia. }
      rewrite Hc in Hd. discriminate. }
    rewrite Hno. now rewrite (Hgroups _ eq_refl).
  - unfold hexToRgb, hexGroups. cbn iota. now rewrite (Hgroups _ eq_refl).
Qed.

Lemma hexToRgb_reads_back_hex_notation_witness :
  hexToRgb "1a2b3c" = Return "rgb(26, 43, 60)"
  /\ hexToRgb "#1a2b3c" = Return "rgb(26, 43, 60)".
Proof.
  apply (hexToRgb_reads_back_hex_notation false 26 43 60); reflexivity.
Defined.

(** * The location sources *)

Lemma truthy_finite (a : num) :
  exists q : Q,
    (if truthy a then a else Num 0) = Num q
    /\ ((a = Num q /\ ~ (q == 0)%Q) \/ (q = 0%Q /\ truthy a = false)).
Proof.
  destruct a as [| |x]; simpl; try (exists 0%Q; split; [reflexivity | now right]).
  destruct (Qeq_bool x 0) eqn:Hx; simpl.
  - exists 0%Q. split; [reflexivity | now right].
  - exists x. split; [reflexivity |]. left. split; [reflexivity |].
    intros Heq. apply Qeq_bool_iff in Heq. congruence.
Qed.

Section DeviceFix.

Context {ext : Externals}.

Local Abbreviation State := TurnNavigationStoreState.

(** X16.  [locationUpdate] hands the store a fix whose heading is always
    a finite number: the heading of the position when that is a number
    other than zero, and 0 when it is zero, [NaN], [null] or missing.
    Speed and coordinate are passed on as they are.  Hence, whenever the
    reducer returns from such a fix with a profile set, the heading in
    the state is that finite number. *)
Theorem device_heading_reaches_store_finite :
  forall pos : Coords.t,
  exists q : Q,
    map forStore (locationUpdate pos)
    = [OtherAction;
       LocationUpdate
         {| lat := Coords.latitude pos; lng := Coords.longitude pos |}
         (Coords.speed pos) (Num q)]
    /\ ((Coords.heading pos = Num q /\ ~ (q == 0)%Q)
        \/ (q = 0%Q /\ truthy (Coords.heading pos) = false))
    /\ forall (st st' : State) (effs : list Effect),
         activeProfile st <> "" ->
         receive st
           (LocationUpdate
              {| lat := Coords.latitude pos; lng := Coords.longitude pos |}
              (Coords.speed pos) (Num q)) = (Return st', effs) ->
         heading st' = Num q /\ speed st' = Coords.speed pos.
Proof.
  intros pos. destruct (truthy_finite (Coords.heading pos)) as (q & Hq & Hcase).
  exists q. split; [| split; [exact Hcase |]].
  - unfold locationUpdate. simpl. now rewrite Hq.
  - intros st st' effs Hp Hr.
    pose proof (fix_outcome st
                  {| lat := Coords.latitude pos; lng := Coords.longitude pos |}
                  (Coords.speed pos) (Num q)) as Hout.
    rewrite Hr in Hout.
    inversion Hout; subst; try contradiction; split; reflexivity.
Qed.

End DeviceFix.

Lemma device_heading_reaches_store_finite_witness :
  exists (st' : TurnNavigationStoreState) (effs : list Effect),
    @receive axisGeo (guiding (leg 25))
      (LocationUpdate (at_ 400 0) (Num 4) (Num 0)) = (Return st', effs)
    /\ heading st' = Num 0 /\ speed st' = Num 4.
Proof.
  destruct (@device_heading_reaches_store_finite axisGeo
              {| Coords.latitude := Num 400; Coords.longitude := Num 0;
                 Coords.heading := NaN; Coords.speed := Num 4 |})
    as (q & Hd & Hcase & Hstore).
  injection Hd as <-.
  eexists. eexists. split; [reflexivity |].
  apply (Hstore (guiding (leg 25)) _ []); [discriminate | reflexivity].
Defined.

Section FakeReplay.

Context {o : Orientation}.

Lemma fakeTable_length (random : nat -> num) (coords : list (list num)) :
  forall (idx : nat) (prev : option (list num)),
    List.length (fakeTable random idx prev coords) = List.length coords.
Proof.
  induction coords as [| p rest IH]; intros idx prev; [reflexivity |].
  simpl. now rewrite IH.
Qed.



End FakeReplay.


Section Replay.

Context {o : Orientation}.

Lemma replay_index (latlon : list (list num)) (n : nat) :
  Nat.iter n (nextIndex latlon) 0%nat = (n mod List.length latlon)%nat.
Proof.
  induction n as [| n IH].
  - simpl. now rewrite Nat.Div0.mod_0_l.
  - rewrite Nat.iter_succ, IH. unfold nextIndex.
    rewrite Nat.Div0.add_mod_idemp_l. f_equal. lia.
Qed.

(** X18.  The replay is periodic and never runs dry: over a table that
    is not empty, the [n]-th run of the timer dispatches the fix of row
    [n mod length], always returns, and dispatches exactly what it
    dispatched one table length earlier, jitter included, since the
    table is computed once. *)
Theorem replay_is_periodic :
  forall (latlon : list (list num)) (n : nat),
    latlon <> [] ->
    Nat.iter n (nextIndex latlon) 0%nat = (n mod List.length latlon)%nat
    /\ replayed latlon (n + List.length latlon) = replayed latlon n
    /\ exists (pos : Coords.t),
         fixAt latlon (n mod List.length latlon) = Return pos
         /\ replayed latlon n = Return (locationUpdate pos).
Proof.
  intros latlon n Hne.
  assert (Hlen : List.length latlon <> 0%nat).
  { destruct latlon; [contradiction | discriminate]. }
  split; [apply replay_index |]. split.
  - unfold replayed. rewrite !replay_index.
    replace (n + List.length latlon)%nat
      with (n + 1 * List.length latlon)%nat by lia.
    now rewrite Nat.Div0.mod_add.
  - unfold replayed, fixAt. rewrite replay_index.
    destruct (nth_error latlon (n mod List.length latlon)) as [row|] eqn:Hrow.
    + eexists. split; reflexivity.
    + apply nth_error_None in Hrow.
      pose proof (Nat.mod_upper_bound n (List.length latlon) Hlen). lia.
Qed.

(** X19.  [initFake] fails with a type error, before anything is
    dispatched, exactly when the response has no path or its first path
    has no point.  Otherwise it builds a table with one row per point and
    dispatches its first row at once, as run 0 of the replay: a zoom and
    a [LocationUpdate] at the jittered first point, with speed 4 and
    heading 0. *)
Theorem initFake_first_fix_or_type_error :
  forall (random : nat -> num) (paths : list (list (list num))),
    (initFake random paths = Throw TypeError
     /\ (paths = [] \/ exists more, paths = [] :: more))
    \/ (exists (p : list num) (rest : list (list num))
               (more : list (list (list num))) (latlon : list (list num))
               (c : Coordinate),
          paths = (p :: rest) :: more
          /\ lat c = JS.add (JS.getNum p 1)
                       (JS.mul (Num 0.0001) (random 0%nat))
          /\ lng c = JS.add (JS.getNum p 0)
                       (JS.mul (Num 0.0001) (random 1%nat))
          /\ initFake random paths
             = Return (latlon,
                       [ZoomMapToPoint c (Num 17) (Num 50) true (Num 0);
                        Navigation (LocationUpdate c (Num 4) (Num 0))])
          /\ List.length latlon = S (List.length rest)
          /\ replayed latlon 0
             = Return [ZoomMapToPoint c (Num 17) (Num 50) true (Num 0);
                       Navigation (LocationUpdate c (Num 4) (Num 0))]).
Proof.
  intros random [| [| p rest] more].
  - left. split; [reflexivity | now left].
  - left. split; [reflexivity |]. right. now exists more.
  - right. exists p, rest, more, (fakeTable random 0 None (p :: rest)).
    exists {| lat := JS.add (JS.getNum p 1)
                       (JS.mul (Num 0.0001) (random 0%nat));
              lng := JS.add (JS.getNum p 0)
                       (JS.mul (Num 0.0001) (random 1%nat)) |}.
    split; [reflexivity |]. split; [reflexivity |]. split; [reflexivity |].
    split; [reflexivity |]. split; [| reflexivity].
    cbn [fakeTable List.length]. now rewrite fakeTable_length.
Qed.

End Replay.

Lemma replay_is_periodic_witness :
  let latlon := @fakeTable flatOrientation (fun _ => Num 0.5) 0 None
                  [[Num 14; Num 51]; [Num 15; Num 52]] in
  Nat.iter 3 (nextIndex latlon) 0%nat = (3 mod List.length latlon)%nat
  /\ replayed latlon (3 + List.length latlon) = replayed latlon 3
  /\ exists (pos : Coords.t),
       fixAt latlon (3 mod List.length latlon) = Return pos
       /\ replayed latlon 3 = Return (locationUpdate pos).
Proof.
  cbv zeta. apply replay_is_periodic. discriminate.
Defined.

(** * The custom model box *)

Section CustomModelBox.

Context {ext : Externals}.

Variable parse : string -> option (option CustomModel).


End CustomModelBox.

Lemma hexToRgb_returns_bytes_or_throws_witness :
  hexToRgb "#fff" = Throw (Error "invalid hex color: #fff").
Proof.
  apply (proj2 (hexToRgb_returns_bytes_or_throws "#fff")); discriminate.
Defined.

Lemma activePath_error_unreachable_witness :
  let w := @run axisGeo (boot (initialState false "OpenStreetMap"))
             [Dispatched (SetSelectedPath (leg 25));
              Dispatched (LocationUpdate (at_ 400 0) (Num 4) (Num 180))] in
  initialPath (state w) <> None /\ activePath (state w) <> None.
Proof.
  cbv zeta. split; [discriminate |].
  apply (proj1 (@activePath_error_unreachable axisGeo false "OpenStreetMap"
                  [Dispatched (SetSelectedPath (leg 25));
                   Dispatched (LocationUpdate (at_ 400 0) (Num 4) (Num 180))])).
  discriminate.
Defined.
